(** * ProjectModel: the project-file persistence layer of MQ-Sprite

    A shallow embedding of [src/projectmodel.cpp]: the asset registry
    ([ProjectModel]), its [load]/[save] entry points and the record mappers
    between JSON records and folders, parts and composites.

    Conventions.
    - A C++ [int] is a [Z]; values produced by the JSON conversions lie in
      the 32-bit range by construction ([wrap32], [int_range]).
    - A [QString] is a [string]; a byte buffer is a [list Byte.byte].
    - A [QJsonObject] is the list of its (key, value) entries in iteration
      order; Qt keeps the entries sorted by key, without repetition.
    - A [QMap] is a [gmap]; [QMap<AssetRef, _>] compares its keys with
      [operator<] on [AssetRef], which looks at the uuid only, so such a map
      is keyed by the uuid.
    - A function that can hit a failed [Q_ASSERT] or undefined behaviour
      returns an [Outcome]. *)

From Stdlib Require Import ZArith QArith Qround String Ascii List Lia.
From Stdlib Require Import HexString DecimalString.
From stdpp Require Import gmap strings list fin_maps pretty sorting.

Set Warnings "-register-all".

Local Open Scope string_scope.
Local Open Scope list_scope.
Local Open Scope Z_scope.

(** ** Primitive Qt values *)

Definition QString := string.
Definition QByteArray := list Byte.byte.

(** [QString::replace(QChar before, QChar after)]. *)
Fixpoint QString_replace (before after : ascii) (s : QString) : QString :=
  match s with
  | EmptyString => EmptyString
  | String c s' =>
      String (if Ascii.eqb c before then after else c)
             (QString_replace before after s')
  end.

(** [QString::endsWith]. *)
Definition QString_endsWith (s suffix : QString) : bool :=
  (String.length suffix <=? String.length s)%nat &&
  String.eqb
    (substring (String.length s - String.length suffix)
               (String.length suffix) s)
    suffix.

(** [QString("p%1x").arg(p)] for an [int] p: the decimal numeral of p is
    spliced in. *)
Definition pivot_key (p : Z) (axis : string) : QString :=
  ("p" ++ pretty p ++ axis)%string.

(** The range of a C++ [int] and the effect of a narrowing cast to it. *)
Definition INT_MIN : Z := - 2 ^ 31.
Definition INT_MAX : Z := 2 ^ 31 - 1.

Definition int_range (z : Z) : Prop := INT_MIN <= z <= INT_MAX.

Definition in_int_range (z : Z) : bool :=
  (INT_MIN <=? z) && (z <=? INT_MAX).

Definition wrap32 (z : Z) : Z := (z + 2 ^ 31) mod 2 ^ 32 - 2 ^ 31.

(** [QUuid]: a 128-bit identifier; the null uuid is the all-zero one. *)
Definition QUuid := N.

Definition QUuid_isNull (u : QUuid) : bool := N.eqb u 0.

Record QPoint := mkQPoint { x : Z; y : Z }.

(** [QImage]: only the dimensions are inspected by the model; a null image
    (the state of a default-constructed [QImage]) is 0 x 0. *)
Record QImage := mkQImage { width : Z; height : Z; bits : QByteArray }.

Definition QImage_null : QImage := mkQImage 0 0 [].

(** ** JSON values (QJsonValue, QJsonObject, QJsonArray, QJsonDocument) *)

(** A JSON number is a [double]; the model keeps its exact rational value. *)
Inductive QJsonValue : Type :=
| JNull
| JBool (b : bool)
| JDouble (d : Q)
| JString (s : QString)
| JArray (a : list QJsonValue)
| JObject (o : list (QString * QJsonValue))
| JUndefined.

Definition QJsonArray := list QJsonValue.
Definition QJsonObject := list (QString * QJsonValue).

Fixpoint QJsonObject_find (o : QJsonObject) (key : QString)
  : option QJsonValue :=
  match o with
  | [] => None
  | (k, v) :: o' => if String.eqb k key then Some v else QJsonObject_find o' key
  end.

(** [QJsonObject::value(key)] and the const [operator[]]: the value stored
    under the key, [Undefined] when the key is absent. *)
Definition QJsonObject_value (o : QJsonObject) (key : QString) : QJsonValue :=
  match QJsonObject_find o key with
  | Some v => v
  | None => JUndefined
  end.

Definition QJsonObject_contains (o : QJsonObject) (key : QString) : bool :=
  match QJsonObject_find o key with
  | Some _ => true
  | None => false
  end.

Definition QJsonObject_isEmpty (o : QJsonObject) : bool :=
  match o with
  | [] => true
  | _ :: _ => false
  end.

Fixpoint QJsonObject_remove (key : QString) (o : QJsonObject) : QJsonObject :=
  match o with
  | [] => []
  | (k, w) :: o' =>
      if String.eqb k key then o' else (k, w) :: QJsonObject_remove key o'
  end.

Fixpoint QJsonObject_put (key : QString) (v : QJsonValue) (o : QJsonObject)
  : QJsonObject :=
  match o with
  | [] => [(key, v)]
  | (k, w) :: o' =>
      if String.eqb k key then (key, v) :: o'
      else if String.ltb key k then (key, v) :: (k, w) :: o'
      else (k, w) :: QJsonObject_put key v o'
  end.

(** [QJsonObject::insert(key, value)]: replaces the value of an existing
    key, otherwise adds the entry at its sorted position; inserting
    [Undefined] removes the key. *)
Definition QJsonObject_insert (key : QString) (v : QJsonValue)
    (o : QJsonObject) : QJsonObject :=
  match v with
  | JUndefined => QJsonObject_remove key o
  | _ => QJsonObject_put key v o
  end.

(** [QJsonValue::toString()]: the string, or a null [QString]. *)
Definition toString (v : QJsonValue) : QString :=
  match v with
  | JString s => s
  | _ => ""
  end.

(** [QJsonValue::toObject()]: the object, or an empty object. *)
Definition toObject (v : QJsonValue) : QJsonObject :=
  match v with
  | JObject o => o
  | _ => []
  end.

(** [QJsonValue::toArray()]: the array, or an empty array. *)
Definition toArray (v : QJsonValue) : QJsonArray :=
  match v with
  | JArray a => a
  | _ => []
  end.

(** The integer a double is exactly equal to, if it is one. *)
Definition double_exact_int (d : Q) : option Z :=
  if Qnum d mod Z.pos (Qden d) =? 0
  then Some (Qnum d / Z.pos (Qden d))
  else None.

(** [QJsonValue::toInt(defaultValue)]: the number when the value is a
    double that is exactly an [int], the default otherwise. *)
Definition toInt_or (v : QJsonValue) (defaultValue : Z) : Z :=
  match v with
  | JDouble d =>
      match double_exact_int d with
      | Some n => if in_int_range n then n else defaultValue
      | None => defaultValue
      end
  | _ => defaultValue
  end.

Definition toInt (v : QJsonValue) : Z := toInt_or v 0.

(** [QJsonValue(int)]. *)
Definition QJsonValue_of_int (n : Z) : QJsonValue := JDouble (inject_Z n).

(** [qRound64] followed by the narrowing cast of [QVariant::toInt()]. *)
Definition double_round_int (d : Q) : Z := wrap32 (Qfloor (Qplus d (1 # 2))).

Inductive QJsonParseError :=
| NoError
| ParseError (errorString : QString).

Inductive QJsonDocument :=
| DocNull
| DocArray (a : QJsonArray)
| DocObject (o : QJsonObject).

Definition QJsonDocument_isNull (d : QJsonDocument) : bool :=
  match d with DocNull => true | _ => false end.

Definition QJsonDocument_isEmpty (d : QJsonDocument) : bool :=
  match d with
  | DocNull => true
  | DocArray a => match a with [] => true | _ => false end
  | DocObject o => QJsonObject_isEmpty o
  end.

Definition QJsonDocument_isObject (d : QJsonDocument) : bool :=
  match d with DocObject _ => true | _ => false end.

Definition QJsonDocument_object (d : QJsonDocument) : QJsonObject :=
  match d with DocObject o => o | _ => [] end.

(** ** Abnormal termination *)

Inductive Fault :=
| AssertionFailure (condition : string)
| NullPointerAccess
| ArrayIndexOutOfRange.

Inductive Outcome (A : Type) : Type :=
| Returned (a : A)
| Aborted (f : Fault).

Arguments Returned {A} a.
Arguments Aborted {A} f.

#[global] Instance Outcome_ret : MRet Outcome := @Returned.

#[global] Instance Outcome_bind : MBind Outcome := fun A B k m =>
  match m with
  | Returned a => k a
  | Aborted f => Aborted f
  end.

(** Modelled from the spec: the [Q_ASSERT] macro of Qt, which is not part of
    the sources; the spec calls a violated assertion of the part decoder a
    fatal consistency check, so a false condition ends the run. *)
Definition Q_ASSERT (condition : bool) (text : string) : Outcome unit :=
  if condition then Returned tt else Aborted (AssertionFailure text).

Fixpoint foldlM {A B : Type} (f : B -> A -> Outcome B) (b : B) (l : list A)
  : Outcome B :=
  match l with
  | [] => Returned b
  | a :: l' => b' ← f b a; foldlM f b' l'
  end.

(** ** The asset graph

    Modelled from the spec: the types of projectmodel.h, which is not part
    of the sources; each record has the fields that projectmodel.cpp reads
    or writes. *)

Module AssetType.
Inductive t := Part | Composite | Folder.

Definition eqb (a b : t) : bool :=
  match a, b with
  | Part, Part | Composite, Composite | Folder, Folder => true
  | _, _ => false
  end.
End AssetType.

Record AssetRef := mkAssetRef { uuid : QUuid; type : AssetType.t }.

(** Modelled from the spec: [AssetRef::isNull()] of projectmodel.h; the
    null ref is the one whose id is empty. *)
Definition AssetRef_isNull (r : AssetRef) : bool := QUuid_isNull (uuid r).

(** [operator==(const AssetRef&, const AssetRef&)]. *)
Definition AssetRef_eq (a b : AssetRef) : bool :=
  (QUuid_isNull (uuid a) && QUuid_isNull (uuid b)) ||
  (N.eqb (uuid a) (uuid b) && AssetType.eqb (type a) (type b)).

(** [operator!=]. *)
Definition AssetRef_neq (a b : AssetRef) : bool := negb (AssetRef_eq a b).

(** [operator<]: the reversed order of the uuids. *)
Definition AssetRef_lt (a b : AssetRef) : bool := N.ltb (uuid b) (uuid a).

Module Folder.
Record t := mk { ref : AssetRef; name : QString; parent : AssetRef }.
End Folder.

Module Mode.
(** [Part::Mode]. [pivots] is the fixed array of [MAX_PIVOTS] vectors. *)
Record t := mk {
  width : Z;
  height : Z;
  numFrames : Z;
  numPivots : Z;
  framesPerSecond : Z;
  frames : list QImage;
  anchor : list QPoint;
  pivots : list (list QPoint)
}.
End Mode.

Module Part.
Record t := mk {
  ref : AssetRef;
  name : QString;
  parent : AssetRef;
  properties : QString;
  modes : gmap QString Mode.t
}.
End Part.

Module Child.
(** [Composite::Child]. *)
Record t := mk {
  parent : Z;
  parentPivot : Z;
  z : Z;
  part : AssetRef;
  index : Z;
  children : list Z
}.
End Child.

Module Composite.
Record t := mk {
  ref : AssetRef;
  name : QString;
  properties : QString;
  parent : AssetRef;
  root : Z;
  children : list QString;
  childrenMap : gmap QString Child.t
}.
End Composite.

(** ** What the sources take from outside

    The Qt string conversions, the JSON parser, the image decoder, the
    archive reader of tarball.h and the constants of projectmodel.h. *)
Record Platform := mkPlatform {
  (** [QUuid(const QString&)] and [QUuid::toString()] *)
  QUuid_fromString : QString -> QUuid;
  QUuid_toString : QUuid -> QString;
  (** the integer that [QVariant::toInt()] reads from a string, and
    [QString::toUInt()] *)
  QString_toInt : QString -> Z;
  QString_toUInt : QString -> Z;
  (** [lindenb::io::TarIn]: [read()] then [ok()] and [fileMap()] *)
  TarIn_read : QByteArray -> option (gmap string QByteArray);
  (** [QJsonDocument::fromJson(bytes, &error)] *)
  QJsonDocument_fromJson : QByteArray -> QJsonParseError * QJsonDocument;
  (** [QImage::loadFromData(bytes, "PNG")] *)
  QImage_loadFromData : QByteArray -> option QImage;
  (** the [type] of a default-constructed [AssetRef] *)
  AssetRef_default_type : AssetType.t;
  (** a default-constructed [Composite::Child] *)
  Child_default : Child.t;
  MAX_PIVOTS : nat
}.

(** ** The record mappers *)

Section Mappers.
Variable E : Platform.

(** [QJsonValue::toVariant().toInt()]: a double is rounded, a string is
    parsed, a boolean counts as 0 or 1, anything else gives 0. *)
Definition toVariant_toInt (v : QJsonValue) : Z :=
  match v with
  | JBool b => if b then 1 else 0
  | JDouble d => double_round_int d
  | JString s => QString_toInt E s
  | _ => 0
  end.

(** *** Folder *)

Definition JsonToFolder (obj : QJsonObject) (folder : Folder.t) : Folder.t :=
  let folder :=
    Folder.mk (Folder.ref folder)
              (toString (QJsonObject_value obj "name"))
              (Folder.parent folder) in
  if QJsonObject_contains obj "parent" then
    Folder.mk (Folder.ref folder) (Folder.name folder)
      (mkAssetRef
         (QUuid_fromString E (toString (QJsonObject_value obj "parent")))
         AssetType.Folder)
  else folder.

Definition FolderToJson (name : QString) (folder : Folder.t)
    (obj : QJsonObject) : QJsonObject :=
  let obj := QJsonObject_insert "name" (JString name) obj in
  if negb (AssetRef_isNull (Folder.parent folder)) then
    QJsonObject_insert "parent"
      (JString (QUuid_toString E (uuid (Folder.parent folder)))) obj
  else obj.

(** *** Part *)

(** [m.pivots[p].push_back(pt)] on the fixed array [pivots]. *)
Definition pivots_push_back (pivots : list (list QPoint)) (p : Z)
    (pt : QPoint) : Outcome (list (list QPoint)) :=
  if (0 <=? p) && (p <? Z.of_nat (length pivots)) then
    Returned (alter (fun v => v ++ [pt]) (Z.to_nat p) pivots)
  else Aborted ArrayIndexOutOfRange.

(** The body of the loop over the frames of a mode. *)
Definition JsonToPart_frame (imageMap : gmap QString QImage)
    (m : Mode.t) (frameValue : QJsonValue) : Outcome Mode.t :=
  let frameObject := toObject frameValue in
  let ax := toVariant_toInt (QJsonObject_value frameObject "ax") in
  let ay := toVariant_toInt (QJsonObject_value frameObject "ay") in
  let anchor := Mode.anchor m ++ [mkQPoint ax ay] in
  let imageName := toString (QJsonObject_value frameObject "image") in
  match imageMap !! imageName with
  | None => Aborted NullPointerAccess
  | Some image =>
      let imageHeight := height image in
      let imageWidth := width image in
      _ ← Q_ASSERT true "image";
      _ ← Q_ASSERT ((imageWidth =? Mode.width m) &&
                     (imageHeight =? Mode.height m))
             "imageWidth == m.width && imageHeight == m.height";
      let frames := Mode.frames m ++ [image] in
      pivots ← foldlM
        (fun pivots p =>
           let px :=
             toVariant_toInt
               (QJsonObject_value frameObject (pivot_key p "x")) in
           let py :=
             toVariant_toInt
               (QJsonObject_value frameObject (pivot_key p "y")) in
           pivots_push_back pivots p (mkQPoint px py))
        (Mode.pivots m) (seqZ 0 (Mode.numPivots m));
      pivots ← foldlM
        (fun pivots p => pivots_push_back pivots p (mkQPoint 0 0))
        pivots
        (seqZ (Mode.numPivots m)
              (Z.of_nat (MAX_PIVOTS E) - Mode.numPivots m));
      Returned
        (Mode.mk (Mode.width m) (Mode.height m) (Mode.numFrames m)
           (Mode.numPivots m) (Mode.framesPerSecond m)
           frames anchor pivots)
  end.

(** The decoding of one non-empty mode object. *)
Definition JsonToPart_mode (imageMap : gmap QString QImage)
    (modeObject : QJsonObject) : Outcome Mode.t :=
  let m :=
    Mode.mk (toInt (QJsonObject_value modeObject "width"))
            (toInt (QJsonObject_value modeObject "height"))
            (toInt (QJsonObject_value modeObject "numFrames"))
            (toInt (QJsonObject_value modeObject "numPivots"))
            (toInt (QJsonObject_value modeObject "framesPerSecond"))
            [] [] (replicate (MAX_PIVOTS E) []) in
  let frameArray := toArray (QJsonObject_value modeObject "frames") in
  _ ← Q_ASSERT (Z.of_nat (length frameArray) =? Mode.numFrames m)
         "frameArray.count()==m.numFrames";
  foldlM (JsonToPart_frame imageMap) m frameArray.

(** The body of the loop over the entries of a part record. *)
Definition JsonToPart_entry (imageMap : gmap QString QImage)
    (part : Part.t) (entry : QString * QJsonValue) : Outcome Part.t :=
  let modeName := fst entry in
  if String.eqb modeName "properties" then
    Returned
      (Part.mk (Part.ref part) (Part.name part) (Part.parent part)
               (toString (snd entry)) (Part.modes part))
  else
    let modeObject := toObject (snd entry) in
    if negb (QJsonObject_isEmpty modeObject) then
      m ← JsonToPart_mode imageMap modeObject;
      Returned
        (Part.mk (Part.ref part) (Part.name part) (Part.parent part)
                 (Part.properties part)
                 (<[modeName := m]> (Part.modes part)))
    else Returned part.

Definition JsonToPart (obj : QJsonObject)
    (imageMap : gmap QString QImage) (part : Part.t) : Outcome Part.t :=
  let part :=
    Part.mk (Part.ref part) (toString (QJsonObject_value obj "name"))
            (Part.parent part) (Part.properties part) (Part.modes part) in
  let part :=
    if QJsonObject_contains obj "parent" then
      Part.mk (Part.ref part) (Part.name part)
        (mkAssetRef
           (QUuid_fromString E (toString (QJsonObject_value obj "parent")))
           AssetType.Folder)
        (Part.properties part) (Part.modes part)
    else part in
  foldlM (JsonToPart_entry imageMap) part obj.

(** The body of [PartToJson] is commented out in the sources: the record
    and the image map are left as they are. *)
Definition PartToJson (name : QString) (part : Part.t) (obj : QJsonObject)
    (imageMap : gmap QString QImage)
  : QJsonObject * gmap QString QImage :=
  (obj, imageMap).

(** *** Composite *)

Definition CompositeToJson_child (comp : Composite.t)
    (childName : QString) : QJsonValue :=
  let fixedChildName := QString_replace " " "_" childName in
  let child := default (Child_default E) (Composite.childrenMap comp !! childName) in
  let childObject := QJsonObject_insert "name" (JString fixedChildName) [] in
  let childObject :=
    QJsonObject_insert "parent" (QJsonValue_of_int (Child.parent child))
      childObject in
  let childObject :=
    QJsonObject_insert "parentPivot"
      (QJsonValue_of_int (Child.parentPivot child)) childObject in
  let childObject :=
    QJsonObject_insert "z" (QJsonValue_of_int (Child.z child)) childObject in
  let childObject :=
    QJsonObject_insert "part"
      (JString (QUuid_toString E (uuid (Child.part child)))) childObject in
  let children := map QJsonValue_of_int (Child.children child) in
  JObject (QJsonObject_insert "children" (JArray children) childObject).

Definition CompositeToJson (name : QString) (comp : Composite.t)
    (obj : QJsonObject) : QJsonObject :=
  let obj :=
    QJsonObject_insert "root" (QJsonValue_of_int (Composite.root comp)) obj in
  let obj :=
    QJsonObject_insert "properties" (JString (Composite.properties comp))
      obj in
  let obj := QJsonObject_insert "name" (JString name) obj in
  let obj :=
    if negb (AssetRef_isNull (Composite.parent comp)) then
      QJsonObject_insert "parent"
        (JString (QUuid_toString E (uuid (Composite.parent comp)))) obj
    else obj in
  let compChildren :=
    map (CompositeToJson_child comp) (Composite.children comp) in
  QJsonObject_insert "parts" (JArray compChildren) obj.

(** The body of the loop over the [parts] array; the state is the
    composite under construction and the running [index]. *)
Definition JsonToComposite_child (st : Composite.t * Z)
    (value : QJsonValue) : Composite.t * Z :=
  let comp := fst st in
  let index := snd st in
  let childObject := toObject value in
  let name := toString (QJsonObject_value childObject "name") in
  let child :=
    Child.mk
      (toVariant_toInt (QJsonObject_value childObject "parent"))
      (toVariant_toInt (QJsonObject_value childObject "parentPivot"))
      (toVariant_toInt (QJsonObject_value childObject "z"))
      (mkAssetRef
         (QUuid_fromString E
            (toString (QJsonObject_value childObject "part")))
         AssetType.Part)
      index
      (map toVariant_toInt
           (toArray (QJsonObject_value childObject "children"))) in
  (Composite.mk (Composite.ref comp) (Composite.name comp)
     (Composite.properties comp) (Composite.parent comp)
     (Composite.root comp)
     (Composite.children comp ++ [name])
     (<[name := child]> (Composite.childrenMap comp)),
   index + 1).

Definition JsonToComposite (obj : QJsonObject) (comp : Composite.t)
  : Composite.t :=
  let root := toVariant_toInt (QJsonObject_value obj "root") in
  let name := toString (QJsonObject_value obj "name") in
  let properties := toString (QJsonObject_value obj "properties") in
  let parent :=
    if QJsonObject_contains obj "parent" then
      mkAssetRef
        (QUuid_fromString E (toString (QJsonObject_value obj "parent")))
        AssetType.Folder
    else Composite.parent comp in
  let comp :=
    Composite.mk (Composite.ref comp) name properties parent root
      (Composite.children comp) (Composite.childrenMap comp) in
  let children := toArray (QJsonObject_value obj "parts") in
  fst (fold_left JsonToComposite_child children (comp, 0)).

End Mappers.

(** ** The asset registry *)

Module ProjectModel.
Record t := mk {
  parts : gmap QUuid Part.t;
  composites : gmap QUuid Composite.t;
  folders : gmap QUuid Folder.t;
  fileName : QString
}.
End ProjectModel.

(** [ProjectModel::clear()]. *)
Definition clear (pm : ProjectModel.t) : ProjectModel.t :=
  ProjectModel.mk ∅ ∅ ∅ "".

Definition getPart (pm : ProjectModel.t) (ref : AssetRef) : option Part.t :=
  ProjectModel.parts pm !! uuid ref.

Definition getComposite (pm : ProjectModel.t) (ref : AssetRef)
  : option Composite.t :=
  ProjectModel.composites pm !! uuid ref.

Definition getFolder (pm : ProjectModel.t) (ref : AssetRef)
  : option Folder.t :=
  ProjectModel.folders pm !! uuid ref.

(** The files that can be opened for reading, with their contents. *)
Definition FileSystem := QString -> option QByteArray.

(** The value kinds [load] hands to [QSettings::setValue]. *)
Inductive QVariant :=
| VUInt (n : Z)
| VJson (v : QJsonValue).

Definition QSettings := gmap QString QVariant.

(** The scan for the first NUL byte of a record: its position, or 0 when
    the record holds none. *)
Fixpoint first_nul (buffer : QByteArray) (i : nat) : nat :=
  match buffer with
  | [] => 0%nat
  | b :: buffer' =>
      if Byte.eqb b Byte.x00 then i else first_nul buffer' (S i)
  end.

Definition record_text_length (rec : QByteArray) : nat := first_nul rec 0.

Definition PROJECT_SAVE_FILE_VERSION : Z := 1.

Section Registry.
Variable E : Platform.

Definition AssetRef_new : AssetRef := mkAssetRef 0%N (AssetRef_default_type E).

(** The merge of the preferences record into the settings store. *)
Definition load_prefs (fileMap : gmap string QByteArray)
    (settings : QSettings) : QSettings :=
  match fileMap !! "prefs.json" with
  | None => settings
  | Some prefsRec =>
      let presLength := record_text_length prefsRec in
      let '(error, prefsDoc) :=
        QJsonDocument_fromJson E (take presLength prefsRec) in
      match error with
      | ParseError _ => settings
      | NoError =>
          if QJsonDocument_isNull prefsDoc
             || QJsonDocument_isEmpty prefsDoc
             || negb (QJsonDocument_isObject prefsDoc)
          then settings
          else
            fold_left
              (fun (settings : QSettings) (it : QString * QJsonValue) =>
                 if String.eqb (fst it) "background_colour" then
                   <[fst it := VUInt (QString_toUInt E (toString (snd it)))]>
                     settings
                 else <[fst it := VJson (snd it)]> settings)
              (QJsonDocument_object prefsDoc) settings
      end
  end.

(** The decoding of every record whose name ends in .png. *)
Definition load_images (fileMap : gmap string QByteArray)
  : Outcome (gmap QString QImage) :=
  foldlM
    (fun (imageMap : gmap QString QImage) (it : string * QByteArray) =>
       let assetName := fst it in
       if QString_endsWith assetName ".png" then
         let loaded := QImage_loadFromData E (snd it) in
         let res := bool_decide (is_Some loaded) in
         let img := default QImage_null loaded in
         _ ← Q_ASSERT res "res";
         Returned (<[assetName := img]> imageMap)
       else Returned imageMap)
    ∅ (map_to_list fileMap).

Definition load_folder (folders : gmap QUuid Folder.t)
    (it : QString * QJsonValue) : gmap QUuid Folder.t :=
  let folderObj := toObject (snd it) in
  let folder :=
    Folder.mk (mkAssetRef (QUuid_fromString E (fst it)) AssetType.Folder)
              "" AssetRef_new in
  let folder := JsonToFolder E folderObj folder in
  <[uuid (Folder.ref folder) := folder]> folders.

Definition load_part (imageMap : gmap QString QImage)
    (parts : gmap QUuid Part.t) (it : QString * QJsonValue)
  : Outcome (gmap QUuid Part.t) :=
  let partObj := toObject (snd it) in
  let part :=
    Part.mk (mkAssetRef (QUuid_fromString E (fst it)) AssetType.Part)
            "" AssetRef_new "" ∅ in
  part ← JsonToPart E partObj imageMap part;
  Returned (<[uuid (Part.ref part) := part]> parts).

Definition load_composite (composites : gmap QUuid Composite.t)
    (it : QString * QJsonValue) : gmap QUuid Composite.t :=
  let compObj := toObject (snd it) in
  let composite :=
    Composite.mk
      (mkAssetRef (QUuid_fromString E (fst it)) AssetType.Composite)
      "" "" AssetRef_new 0 [] ∅ in
  let composite := JsonToComposite E compObj composite in
  <[uuid (Composite.ref composite) := composite]> composites.

(** The last block of [load]: the three collections of the document are
    inserted into the collections of the registry. *)
Definition load_data (dataObj : QJsonObject)
    (imageMap : gmap QString QImage) (fileName : QString)
    (pm : ProjectModel.t) : Outcome ProjectModel.t :=
  let folders := toObject (QJsonObject_value dataObj "folders") in
  let parts := toObject (QJsonObject_value dataObj "parts") in
  let comps := toObject (QJsonObject_value dataObj "comps") in
  let pm_folders :=
    if negb (QJsonObject_isEmpty folders) then
      fold_left load_folder folders (ProjectModel.folders pm)
    else ProjectModel.folders pm in
  pm_parts ←
    (if negb (QJsonObject_isEmpty parts) then
       foldlM (load_part imageMap) (ProjectModel.parts pm) parts
     else Returned (ProjectModel.parts pm));
  let pm_composites :=
    if negb (QJsonObject_isEmpty comps) then
      fold_left load_composite comps (ProjectModel.composites pm)
    else ProjectModel.composites pm in
  Returned (ProjectModel.mk pm_parts pm_composites pm_folders fileName).

(** The result of [load]: the returned flag, the [reason] out-parameter,
    the registry and the settings store after the call. *)
Definition LoadResult : Type :=
  bool * QString * ProjectModel.t * QSettings.

Definition load_failed (reason : QString) (pm : ProjectModel.t)
    (settings : QSettings) : Outcome LoadResult :=
  Returned (false, reason, pm, settings).

(** [ProjectModel::load(fileName, reason)]. *)
Definition load (fs : FileSystem) (fileName : QString) (reason : QString)
    (pm : ProjectModel.t) (settings : QSettings) : Outcome LoadResult :=
  match fs fileName with
  | None => load_failed "Cannot open file" pm settings
  | Some content =>
  match TarIn_read E content with
  | None => load_failed "Cannot read project file" pm settings
  | Some fileMap =>
  match fileMap !! "data.json" with
  | None => load_failed "Internal data.json is missing" pm settings
  | Some dataRec =>
  let dataLength := record_text_length dataRec in
  if (dataLength =? 0)%nat then
    load_failed "Internal data.json is empty" pm settings
  else
  let '(error, dataDoc) :=
    QJsonDocument_fromJson E (take dataLength dataRec) in
  match error with
  | ParseError errorString =>
      load_failed
        ("Internal data.json parse error: " ++ errorString)%string
        pm settings
  | NoError =>
  if QJsonDocument_isNull dataDoc
     || QJsonDocument_isEmpty dataDoc
     || negb (QJsonDocument_isObject dataDoc)
  then load_failed "Internal data.json is not a valid json object"
         pm settings
  else
  let dataObj := QJsonDocument_object dataDoc in
  if negb (QJsonObject_contains dataObj "version") then
    load_failed "Internal data.json has no version field" pm settings
  else if negb (toInt_or (QJsonObject_value dataObj "version") 0
                =? PROJECT_SAVE_FILE_VERSION) then
    load_failed "Internal data.json has an invalid version" pm settings
  else
  let settings := load_prefs fileMap settings in
  imageMap ← load_images fileMap;
  pm ← load_data dataObj imageMap fileName pm;
  Returned (true, reason, pm, settings)
  end end end end.

(** [ProjectModel::save(fileName)]: the body after [return false] is
    commented out; neither the registry nor any file is touched. *)
Definition save (fs : FileSystem) (fileName : QString) (pm : ProjectModel.t)
  : bool * ProjectModel.t * FileSystem :=
  (false, pm, fs).

End Registry.

(** ** Properties of records and values used in the statements *)

(** The frames array and the declared frame count of a mode object. *)
Definition mode_frames (modeObject : QJsonObject) : QJsonArray :=
  toArray (QJsonObject_value modeObject "frames").

Definition mode_frame_count (modeObject : QJsonObject) : Z :=
  Z.of_nat (length (mode_frames modeObject)).

Definition mode_numFrames (modeObject : QJsonObject) : Z :=
  toInt (QJsonObject_value modeObject "numFrames").

(** The image name of a frame entry. *)
Definition frame_image_name (frameValue : QJsonValue) : QString :=
  toString (QJsonObject_value (toObject frameValue) "image").

(** An entry of a part record that [JsonToPart] decodes as a mode. *)
Definition mode_entry (obj : QJsonObject) (modeName : QString)
    (modeObject : QJsonObject) : Prop :=
  In (modeName, JObject modeObject) obj /\
  modeName <> "properties" /\
  modeObject <> [].

(** The point read from a frame entry for pivot [p]. *)
Definition frame_pivot (E : Platform) (p : Z) (frameValue : QJsonValue)
  : QPoint :=
  mkQPoint
    (toVariant_toInt E
       (QJsonObject_value (toObject frameValue) (pivot_key p "x")))
    (toVariant_toInt E
       (QJsonObject_value (toObject frameValue) (pivot_key p "y"))).

(** The anchor point read from a frame entry. *)
Definition frame_anchor (E : Platform) (frameValue : QJsonValue) : QPoint :=
  mkQPoint
    (toVariant_toInt E (QJsonObject_value (toObject frameValue) "ax"))
    (toVariant_toInt E (QJsonObject_value (toObject frameValue) "ay")).

(** One point (0,0) per frame. *)
Definition zero_pivots (frames : QJsonArray) : list QPoint :=
  map (fun _ => mkQPoint 0 0) frames.

(** The image of every frame of the mode is in the map and has the
    dimensions the mode declares. *)
Definition frames_resolve (imageMap : gmap QString QImage)
    (modeObject : QJsonObject) : Prop :=
  forall frameValue, In frameValue (mode_frames modeObject) ->
    exists image,
      imageMap !! frame_image_name frameValue = Some image /\
      width image = toInt (QJsonObject_value modeObject "width") /\
      height image = toInt (QJsonObject_value modeObject "height").

(** The text of the assertion on the number of frames of a mode. *)
Definition frames_count_text : string := "frameArray.count()==m.numFrames".

(** The mode as [JsonToPart] has it before the loop over the frames. *)
Definition mode_start (E : Platform) (modeObject : QJsonObject) : Mode.t :=
  Mode.mk (toInt (QJsonObject_value modeObject "width"))
          (toInt (QJsonObject_value modeObject "height"))
          (toInt (QJsonObject_value modeObject "numFrames"))
          (toInt (QJsonObject_value modeObject "numPivots"))
          (toInt (QJsonObject_value modeObject "framesPerSecond"))
          [] [] (replicate (MAX_PIVOTS E) []).

(** The name of an entry of the [parts] array of a composite record. *)
Definition child_entry_name (value : QJsonValue) : QString :=
  toString (QJsonObject_value (toObject value) "name").

Definition composite_child_names (obj : QJsonObject) : list QString :=
  map child_entry_name (toArray (QJsonObject_value obj "parts")).

(** The sync invariant of a composite: [children] and the keys of
    [childrenMap] are the same names, each of them once in [children]. *)
Definition children_in_map (c : Composite.t) : Prop :=
  forall n : QString,
    In n (Composite.children c) -> is_Some (Composite.childrenMap c !! n).

Definition map_keys_in_children (c : Composite.t) : Prop :=
  forall n : QString,
    is_Some (Composite.childrenMap c !! n) -> In n (Composite.children c).

Definition Composite_sync (c : Composite.t) : Prop :=
  children_in_map c /\ map_keys_in_children c /\
  NoDup (Composite.children c).

Definition indices_unique (c : Composite.t) : Prop :=
  forall (n1 n2 : QString) (c1 c2 : Child.t),
    Composite.childrenMap c !! n1 = Some c1 ->
    Composite.childrenMap c !! n2 = Some c2 ->
    Child.index c1 = Child.index c2 -> n1 = n2.

(** The entry of every child carries its position in [children]. *)
Definition indices_in_document_order (c : Composite.t) : Prop :=
  forall (i : nat) (n : QString),
    Composite.children c !! i = Some n ->
    exists ch, Composite.childrenMap c !! n = Some ch /\
               Child.index ch = Z.of_nat i.

Definition Child_wf (ch : Child.t) : Prop :=
  int_range (Child.parent ch) /\ int_range (Child.parentPivot ch) /\
  int_range (Child.z ch) /\ Forall int_range (Child.children ch) /\
  type (Child.part ch) = AssetType.Part.

Fixpoint contains_space (s : QString) : bool :=
  match s with
  | EmptyString => false
  | String c s' => Ascii.eqb c " " || contains_space s'
  end.

Definition no_space (s : QString) : Prop := contains_space s = false.

(** A nullable reference to a folder. *)
Definition folder_ref (r : AssetRef) : Prop :=
  AssetRef_isNull r = true \/ type r = AssetType.Folder.

(** The invariants of a composite value (section 3 of the spec). *)
Definition Composite_wf (c : Composite.t) : Prop :=
  Composite_sync c /\ indices_in_document_order c /\
  int_range (Composite.root c) /\ folder_ref (Composite.parent c) /\
  forall (n : QString) (ch : Child.t),
    Composite.childrenMap c !! n = Some ch -> Child_wf ch.

(** Equality of assets, with references compared by [operator==]. *)
Definition Folder_equal (a b : Folder.t) : Prop :=
  AssetRef_eq (Folder.ref a) (Folder.ref b) = true /\
  Folder.name a = Folder.name b /\
  AssetRef_eq (Folder.parent a) (Folder.parent b) = true.

Definition Composite_equal (a b : Composite.t) : Prop :=
  AssetRef_eq (Composite.ref a) (Composite.ref b) = true /\
  Composite.name a = Composite.name b /\
  Composite.properties a = Composite.properties b /\
  AssetRef_eq (Composite.parent a) (Composite.parent b) = true /\
  Composite.root a = Composite.root b /\
  Composite.children a = Composite.children b /\
  Composite.childrenMap a = Composite.childrenMap b.

(** The uuids under which a collection of the document is inserted. *)
Definition document_uuids (E : Platform) (dataObj : QJsonObject)
    (collection : QString) : list QUuid :=
  map (fun it => QUuid_fromString E (fst it))
      (toObject (QJsonObject_value dataObj collection)).

Section LoadSteps.
Variable E : Platform.
Variable fs : FileSystem.
Variable fileName : QString.

(** The data record of the archive stored in the file. *)
Definition data_record (dataRec : QByteArray) : Prop :=
  exists content fileMap,
    fs fileName = Some content /\
    TarIn_read E content = Some fileMap /\
    fileMap !! "data.json" = Some dataRec.

(** The result of parsing the text of the data record. *)
Definition data_parse (error : QJsonParseError) (doc : QJsonDocument)
  : Prop :=
  exists dataRec,
    data_record dataRec /\
    record_text_length dataRec <> 0%nat /\
    QJsonDocument_fromJson E (take (record_text_length dataRec) dataRec)
      = (error, doc).

(** The steps at which [load] gives up, each with the reason it reports. *)
Inductive LoadFailsAt : QString -> Prop :=
| fails_open :
    fs fileName = None ->
    LoadFailsAt "Cannot open file"
| fails_archive content :
    fs fileName = Some content ->
    TarIn_read E content = None ->
    LoadFailsAt "Cannot read project file"
| fails_data_missing content fileMap :
    fs fileName = Some content ->
    TarIn_read E content = Some fileMap ->
    fileMap !! "data.json" = None ->
    LoadFailsAt "Internal data.json is missing"
| fails_data_empty dataRec :
    data_record dataRec ->
    record_text_length dataRec = 0%nat ->
    LoadFailsAt "Internal data.json is empty"
| fails_parse errorString doc :
    data_parse (ParseError errorString) doc ->
    LoadFailsAt ("Internal data.json parse error: " ++ errorString)%string
| fails_not_object doc :
    data_parse NoError doc ->
    (forall o, doc = DocObject o -> o = []) ->
    LoadFailsAt "Internal data.json is not a valid json object"
| fails_version_missing o :
    data_parse NoError (DocObject o) ->
    o <> [] ->
    QJsonObject_find o "version" = None ->
    LoadFailsAt "Internal data.json has no version field"
| fails_version_wrong o v :
    data_parse NoError (DocObject o) ->
    QJsonObject_find o "version" = Some v ->
    toInt_or v 0 <> PROJECT_SAVE_FILE_VERSION ->
    LoadFailsAt "Internal data.json has an invalid version".

End LoadSteps.

(** A version field that the version gate must reject: absent, not a
    number, or a number other than the supported version. *)
Definition version_rejected (o : QJsonObject) : Prop :=
  QJsonObject_find o "version" = None \/
  (exists v, QJsonObject_find o "version" = Some v /\
             forall d, v <> JDouble d) \/
  (exists d, QJsonObject_find o "version" = Some (JDouble d) /\
             ~ Qeq d (inject_Z PROJECT_SAVE_FILE_VERSION)).

(** The reasons [load] reports for a document that fails the schema. *)
Definition schema_reasons : list QString :=
  [ "Internal data.json is not a valid json object";
    "Internal data.json has no version field";
    "Internal data.json has an invalid version" ].

(** The child that [JsonToComposite] builds from an entry of the [parts]
    array when the running index is [index]. *)
Definition child_of_entry (E : Platform) (value : QJsonValue) (index : Z)
  : Child.t :=
  let childObject := toObject value in
  Child.mk
    (toVariant_toInt E (QJsonObject_value childObject "parent"))
    (toVariant_toInt E (QJsonObject_value childObject "parentPivot"))
    (toVariant_toInt E (QJsonObject_value childObject "z"))
    (mkAssetRef
       (QUuid_fromString E (toString (QJsonObject_value childObject "part")))
       AssetType.Part)
    index
    (map (toVariant_toInt E)
         (toArray (QJsonObject_value childObject "children"))).

(** The position [j] is the last one at which [n] occurs in [names]. *)
Definition last_occurrence (names : list QString) (n : QString) (j : nat)
  : Prop :=
  names !! j = Some n /\
  forall j' : nat, (j < j')%nat -> names !! j' <> Some n.

(** A composite as [load] creates it before decoding: no children yet and
    a null parent. *)
Definition fresh_composite (target : Composite.t) : Prop :=
  Composite.children target = [] /\
  Composite.childrenMap target = ∅ /\
  AssetRef_isNull (Composite.parent target) = true.

(** What a successful [load] does to one collection of the registry:
    outside the uuids of the document the collection is the old one, and
    under each uuid of the document it holds an asset decoded from an entry
    of the document with that uuid. *)
Definition merged {V : Type} (old new : gmap QUuid V) (uuids : list QUuid)
    (decoded : QUuid -> V -> Prop) : Prop :=
  (forall u, ~ In u uuids -> new !! u = old !! u) /\
  (forall u, In u uuids -> exists v, decoded u v /\ new !! u = Some v).

Section Decoded.
Variable E : Platform.
Variable dataObj : QJsonObject.

Definition document_entry (collection : QString) (u : QUuid)
    (record : QJsonObject) : Prop :=
  exists key v,
    In (key, v) (toObject (QJsonObject_value dataObj collection)) /\
    QUuid_fromString E key = u /\ record = toObject v.

Definition decoded_folder (u : QUuid) (f : Folder.t) : Prop :=
  exists record,
    document_entry "folders" u record /\
    f = JsonToFolder E record
          (Folder.mk (mkAssetRef u AssetType.Folder) "" (AssetRef_new E)).

Definition decoded_part (imageMap : gmap QString QImage) (u : QUuid)
    (p : Part.t) : Prop :=
  exists record,
    document_entry "parts" u record /\
    JsonToPart E record imageMap
      (Part.mk (mkAssetRef u AssetType.Part) "" (AssetRef_new E) "" ∅)
      = Returned p.

Definition decoded_composite (u : QUuid) (c : Composite.t) : Prop :=
  exists record,
    document_entry "comps" u record /\
    c = JsonToComposite E record
          (Composite.mk (mkAssetRef u AssetType.Composite) "" ""
             (AssetRef_new E) 0 [] ∅).
End Decoded.

(** ** Stand-ins for the outside world, used to run the model *)

Module Fixture.

Definition string_to_int (s : QString) : Z :=
  match NilZero.int_of_string s with
  | Some i => Z.of_int i
  | None => 0
  end.

Definition string_to_uint (s : QString) : Z :=
  match NilZero.uint_of_string s with
  | Some u => Z.of_uint u
  | None => 0
  end.

(** A platform whose archive reader and JSON parser give fixed answers:
    every file holds the archive [archive] and every text parses to
    [parsed]; every image record decodes to a 2 x 2 image. *)
Definition platform (archive : option (gmap string QByteArray))
    (parsed : QJsonParseError * QJsonDocument) : Platform :=
  mkPlatform
    HexString.to_N HexString.of_N
    string_to_int string_to_uint
    (fun _ => archive)
    (fun _ => parsed)
    (fun data => Some (mkQImage 2 2 data))
    AssetType.Folder
    (Child.mk 0 0 0 (mkAssetRef 0%N AssetType.Part) 0 [])
    4.

(** A file system with the single file project.mqs. *)
Definition files : FileSystem :=
  fun path =>
    if String.eqb path "project.mqs" then Some [Byte.x31] else None.

Definition data_archive : gmap string QByteArray :=
  {[ "data.json" := [Byte.x7b; Byte.x7d; Byte.x00] ]}.

Definition old_folder : Folder.t :=
  Folder.mk (mkAssetRef 7%N AssetType.Folder) "old"
            (mkAssetRef 0%N AssetType.Folder).

(** A registry holding one folder. *)
Definition old_registry : ProjectModel.t :=
  ProjectModel.mk ∅ ∅ {[ 7%N := old_folder ]} "old.mqs".

(** A document of version 1 whose only asset is the folder 0x9, named
    new. *)
Definition one_folder_document : QJsonDocument :=
  DocObject
    [ ("folders", JObject [("0x9", JObject [("name", JString "new")])]);
      ("version", JDouble (inject_Z 1)) ].

Definition new_folder : Folder.t :=
  Folder.mk (mkAssetRef 9%N AssetType.Folder) "new"
            (mkAssetRef 0%N AssetType.Folder).

(** The registry after loading that document over [old_registry]. *)
Definition merged_registry : ProjectModel.t :=
  ProjectModel.mk ∅ ∅ (<[ 9%N := new_folder ]> {[ 7%N := old_folder ]})
    "project.mqs".

Definition one_folder_platform : Platform :=
  platform (Some data_archive) (NoError, one_folder_document).

(** A folder inside folder 7, and a folder as [load] creates it. *)
Definition sub_folder : Folder.t :=
  Folder.mk (mkAssetRef 9%N AssetType.Folder) "sub folder"
            (mkAssetRef 7%N AssetType.Folder).

Definition blank_folder : Folder.t :=
  Folder.mk (mkAssetRef 9%N AssetType.Folder) ""
            (mkAssetRef 0%N AssetType.Folder).

Definition image2 : QImage := mkQImage 2 2 [].

Definition images : gmap QString QImage := {[ "hero_000.png" := image2 ]}.

Definition frame (image : QString) (p0x p0y : Z) : QJsonValue :=
  JObject [ ("ax", JDouble (inject_Z 1)); ("ay", JDouble (inject_Z 2));
            ("image", JString image);
            ("p0x", JDouble (inject_Z p0x));
            ("p0y", JDouble (inject_Z p0y)) ].

(** A mode record of 2 x 2 frames with one pivot. *)
Definition mode (numFrames : Z) (frames : list QJsonValue) : QJsonObject :=
  [ ("frames", JArray frames);
    ("framesPerSecond", JDouble (inject_Z 8));
    ("height", JDouble (inject_Z 2));
    ("numFrames", JDouble (inject_Z numFrames));
    ("numPivots", JDouble (inject_Z 1));
    ("width", JDouble (inject_Z 2)) ].

Definition part_record (modeObject : QJsonObject) : QJsonObject :=
  [ ("Idle", JObject modeObject); ("name", JString "Hero") ].

Definition new_part : Part.t :=
  Part.mk (mkAssetRef 3%N AssetType.Part) ""
          (mkAssetRef 0%N AssetType.Folder) "" ∅.

(** A part record with the mode Idle of one frame, a mode that is an
    empty object and a name. *)
Definition hero_record : QJsonObject :=
  [ ("Empty", JObject []);
    ("Idle", JObject (mode 1 [frame "hero_000.png" 3 4]));
    ("name", JString "Hero") ].

Definition idle_mode : Mode.t :=
  Mode.mk 2 2 1 1 8 [image2] [mkQPoint 1 2]
    [ [mkQPoint 3 4]; [mkQPoint 0 0]; [mkQPoint 0 0]; [mkQPoint 0 0] ].

(** The part decoded from [hero_record]. *)
Definition hero_part : Part.t :=
  Part.mk (mkAssetRef 3%N AssetType.Part) "Hero"
          (mkAssetRef 0%N AssetType.Folder) "" {[ "Idle" := idle_mode ]}.

Definition new_composite : Composite.t :=
  Composite.mk (mkAssetRef 5%N AssetType.Composite) "" ""
               (mkAssetRef 0%N AssetType.Folder) 0 [] ∅.

Definition child (index : Z) : Child.t :=
  Child.mk (-1) 0 index (mkAssetRef 3%N AssetType.Part) index [].

(** A composite with the children named by [first] and [second]. *)
Definition composite (first second : QString) : Composite.t :=
  Composite.mk (mkAssetRef 5%N AssetType.Composite) "walker" "props"
    (mkAssetRef 7%N AssetType.Folder) 0
    [first; second]
    (<[second := child 1]> {[ first := child 0 ]}).

Definition child_record (name : QString) : QJsonValue :=
  JObject [ ("name", JString name); ("z", JDouble (inject_Z 4)) ].

End Fixture.

(** ** The read surface of the registry and the order of its maps *)

(** [qHash(const AssetRef&)]: the hash of the uuid, whatever hash [h] Qt
    uses for a [QUuid]. *)
Definition qHash (h : QUuid -> Z) (key : AssetRef) : Z := h (uuid key).

(** What an [Asset*] returned by the registry points to. *)
Inductive Asset :=
| AssetPart (p : Part.t)
| AssetComposite (c : Composite.t)
| AssetFolder (f : Folder.t).

Definition Asset_ref (a : Asset) : AssetRef :=
  match a with
  | AssetPart p => Part.ref p
  | AssetComposite c => Composite.ref c
  | AssetFolder f => Folder.ref f
  end.

(** [ProjectModel::getAsset]: the switch on the kind of the reference. *)
Definition getAsset (pm : ProjectModel.t) (ref : AssetRef) : option Asset :=
  match type ref with
  | AssetType.Part => AssetPart <$> getPart pm ref
  | AssetType.Composite => AssetComposite <$> getComposite pm ref
  | AssetType.Folder => AssetFolder <$> getFolder pm ref
  end.

Definition hasAsset (pm : ProjectModel.t) (ref : AssetRef) : bool :=
  match getAsset pm ref with Some _ => true | None => false end.

Definition hasPart (pm : ProjectModel.t) (ref : AssetRef) : bool :=
  match getPart pm ref with Some _ => true | None => false end.

Definition hasComposite (pm : ProjectModel.t) (ref : AssetRef) : bool :=
  match getComposite pm ref with Some _ => true | None => false end.

Definition hasFolder (pm : ProjectModel.t) (ref : AssetRef) : bool :=
  match getFolder pm ref with Some _ => true | None => false end.

(** The order in which a [QMap<AssetRef, _>] is walked: ascending in
    [operator<] on the keys, that is, from the greatest uuid down. *)
Definition key_before {V : Type} (a b : QUuid * V) : Prop :=
  (fst b <= fst a)%N.

#[global] Instance key_before_dec {V : Type} (a b : QUuid * V)
  : Decision (key_before a b) := decide (fst b <= fst a)%N.

Definition QMap_entries {V : Type} (m : gmap QUuid V) : list (QUuid * V) :=
  merge_sort key_before (map_to_list m).

(** [QMap::values()]. *)
Definition QMap_values {V : Type} (m : gmap QUuid V) : list V :=
  map snd (QMap_entries m).

(** [ProjectModel::findPartByName]: the first part, in the order of the
    map, whose name is the given one. *)
Definition findPartByName (pm : ProjectModel.t) (name : QString)
  : option Part.t :=
  find (fun p => String.eqb (Part.name p) name)
       (QMap_values (ProjectModel.parts pm)).

Definition findCompositeByName (pm : ProjectModel.t) (name : QString)
  : option Composite.t :=
  find (fun p => String.eqb (Composite.name p) name)
       (QMap_values (ProjectModel.composites pm)).

Definition findFolderByName (pm : ProjectModel.t) (name : QString)
  : option Folder.t :=
  find (fun f => String.eqb (Folder.name f) name)
       (QMap_values (ProjectModel.folders pm)).

(** Every asset of the registry is stored under the uuid of its own
    reference, and the reference has the kind of its collection. *)
Definition registry_keyed (pm : ProjectModel.t) : Prop :=
  (forall u p, ProjectModel.parts pm !! u = Some p ->
               Part.ref p = mkAssetRef u AssetType.Part) /\
  (forall u c, ProjectModel.composites pm !! u = Some c ->
               Composite.ref c = mkAssetRef u AssetType.Composite) /\
  (forall u f, ProjectModel.folders pm !! u = Some f ->
               Folder.ref f = mkAssetRef u AssetType.Folder).

(** The document has passed the gate of [load]: the data record of the
    archive [fileMap] parses to the non-empty object [dataObj] whose
    version is the supported one. *)
Definition passes_gate (E : Platform) (fs : FileSystem) (fileName : QString)
    (fileMap : gmap string QByteArray) (dataObj : QJsonObject) : Prop :=
  exists content dataRec,
    fs fileName = Some content /\
    TarIn_read E content = Some fileMap /\
    fileMap !! "data.json" = Some dataRec /\
    record_text_length dataRec <> 0%nat /\
    QJsonDocument_fromJson E (take (record_text_length dataRec) dataRec)
      = (NoError, DocObject dataObj) /\
    QJsonObject_contains dataObj "version" = true /\
    toInt_or (QJsonObject_value dataObj "version") 0
      = PROJECT_SAVE_FILE_VERSION.

(** The image records of an archive: the records named *.png. *)
Definition image_record (fileMap : gmap string QByteArray)
    (name : QString) (record : QByteArray) : Prop :=
  fileMap !! name = Some record /\ QString_endsWith name ".png" = true.



(** The text of the assertion on the dimensions of a frame image. *)
Definition dimensions_text : string :=
  "imageWidth == m.width && imageHeight == m.height".

(** The value [load] stores in the settings for an entry of the
    preferences record. *)
Definition preference_value (E : Platform) (key : QString) (v : QJsonValue)
  : QVariant :=
  if String.eqb key "background_colour"
  then VUInt (QString_toUInt E (toString v))
  else VJson v.


(** ** Further sample data *)

Module Sample.

(** A document of version 1 with the part 0x3, whose mode Idle has one
    frame that names the image missing.png. *)
Definition missing_image_document : QJsonDocument :=
  DocObject
    [ ("parts",
       JObject
         [("0x3",
           JObject
             (Fixture.part_record
                (Fixture.mode 1 [Fixture.frame "missing.png" 3 4])))]);
      ("version", JDouble (inject_Z 1)) ].

Definition missing_image_platform : Platform :=
  Fixture.platform (Some Fixture.data_archive)
    (NoError, missing_image_document).

(** A registry with two folders and a part of the same name. *)
Definition named_folder (u : QUuid) (name : QString) : Folder.t :=
  Folder.mk (mkAssetRef u AssetType.Folder) name
            (mkAssetRef 0%N AssetType.Folder).

Definition twin_registry : ProjectModel.t :=
  ProjectModel.mk
    {[ 4%N := Fixture.hero_part ]} ∅
    (<[ 9%N := named_folder 9%N "Hero" ]> {[ 7%N := named_folder 7%N "Hero" ]})
    "twins.mqs".


(** A mode record that declares frames of 3 x 3. *)
Definition wide_mode : QJsonObject :=
  [ ("frames", JArray [Fixture.frame "hero_000.png" 3 4]);
    ("framesPerSecond", JDouble (inject_Z 8));
    ("height", JDouble (inject_Z 3));
    ("numFrames", JDouble (inject_Z 1));
    ("numPivots", JDouble (inject_Z 1));
    ("width", JDouble (inject_Z 3)) ].

(** An archive with a preferences record, and the preferences it holds. *)
Definition prefs_archive : gmap string QByteArray :=
  <[ "prefs.json" := [Byte.x7b; Byte.x7d; Byte.x00] ]> Fixture.data_archive.

Definition prefs_document : QJsonDocument :=
  DocObject
    [ ("background_colour", JString "255");
      ("grid", JBool true) ].

Definition prefs_platform : Platform :=
  Fixture.platform (Some prefs_archive) (NoError, prefs_document).





End Sample.

(** * Properties *)

(** ** Runs that end early *)

Lemma bind_Returned_inv {A B : Type} (m : Outcome A) (k : A -> Outcome B)
    (b : B) :
  m ≫= k = Returned b -> exists a, m = Returned a /\ k a = Returned b.
Proof.
  destruct m as [a|f]; cbn; intros H; [eauto | discriminate].
Qed.

Lemma foldlM_cons_Returned {A B : Type} (f : B -> A -> Outcome B) (b r : B)
    (a : A) (l : list A) :
  foldlM f b (a :: l) = Returned r ->
  exists b', f b a = Returned b' /\ foldlM f b' l = Returned r.
Proof. cbn [foldlM]. apply bind_Returned_inv. Qed.

(** A step that aborts from every state aborts the whole loop. *)
Lemma foldlM_aborts {A B : Type} (f : B -> A -> Outcome B) (a : A)
    (l : list A) :
  In a l ->
  (forall b, exists e, f b a = Aborted e) ->
  forall b, exists e, foldlM f b l = Aborted e.
Proof.
  intros Hin Hstep. induction l as [|a' l IH]; [destruct Hin|].
  intros b. cbn [foldlM].
  destruct Hin as [->|Hin].
  - destruct (Hstep b) as [e ->]. cbn. eauto.
  - destruct (f b a') as [b'|e]; cbn; [apply IH, Hin | eauto].
Qed.

(** ** The version gate and the failures of load *)

Lemma toInt_or_version_1 (d : Q) :
  toInt_or (JDouble d) 0 = PROJECT_SAVE_FILE_VERSION ->
  Qeq d (inject_Z PROJECT_SAVE_FILE_VERSION).
Proof.
  unfold toInt_or, double_exact_int, PROJECT_SAVE_FILE_VERSION.
  destruct (Qnum d mod Z.pos (Qden d) =? 0) eqn:Hmod; [|discriminate].
  destruct (in_int_range _); [|discriminate].
  intros Hdiv. apply Z.eqb_eq in Hmod.
  unfold Qeq. cbn.
  pose proof (Z.div_mod (Qnum d) (Z.pos (Qden d))) as Hdm.
  rewrite Hdiv, Hmod in Hdm. lia.
Qed.

Lemma toInt_or_not_double (v : QJsonValue) (defaultValue : Z) :
  (forall d, v <> JDouble d) -> toInt_or v defaultValue = defaultValue.
Proof. destruct v; cbn; intros H; try reflexivity. now destruct (H d). Qed.

Section LoadFailure.
Variable E : Platform.
Variable fs : FileSystem.
Variable fileName reason : QString.
Variable pm : ProjectModel.t.
Variable settings : QSettings.

(** Each failing step makes [load] return false with the reason of the
    step, the registry and the settings store being those of the call. *)
Lemma load_fails_at_step (r : QString) :
  LoadFailsAt E fs fileName r ->
  load E fs fileName reason pm settings = Returned (false, r, pm, settings).
Proof.
  intros H. unfold load, load_failed.
  destruct H as
    [ Hopen | content Hopen Htar | content fileMap Hopen Htar Hdata
    | dataRec (content & fileMap & Hopen & Htar & Hdata) Hlen
    | errorString doc
        (dataRec & (content & fileMap & Hopen & Htar & Hdata) & Hlen & Hparse)
    | doc
        (dataRec & (content & fileMap & Hopen & Htar & Hdata) & Hlen & Hparse)
        Hdoc
    | o (dataRec & (content & fileMap & Hopen & Htar & Hdata) & Hlen & Hparse)
        Hne Hfind
    | o v
        (dataRec & (content & fileMap & Hopen & Htar & Hdata) & Hlen & Hparse)
        Hfind Hver ];
    rewrite Hopen; try rewrite Htar; try rewrite Hdata; try reflexivity.
  - rewrite Hlen. reflexivity.
  - apply Nat.eqb_neq in Hlen. rewrite Hlen, Hparse. reflexivity.
  - apply Nat.eqb_neq in Hlen. rewrite Hlen, Hparse.
    destruct doc as [|a|o]; cbn; try reflexivity.
    + now rewrite orb_true_r.
    + rewrite (Hdoc o eq_refl). reflexivity.
  - apply Nat.eqb_neq in Hlen. rewrite Hlen, Hparse.
    destruct o as [|it o]; [congruence|].
    cbn [QJsonDocument_isNull QJsonDocument_isEmpty QJsonDocument_isObject
         QJsonObject_isEmpty QJsonDocument_object negb orb].
    unfold QJsonObject_contains. rewrite Hfind. reflexivity.
  - apply Nat.eqb_neq in Hlen. rewrite Hlen, Hparse.
    destruct o as [|it o]; [discriminate|].
    cbn [QJsonDocument_isNull QJsonDocument_isEmpty QJsonDocument_isObject
         QJsonObject_isEmpty QJsonDocument_object negb orb].
    unfold QJsonObject_contains, QJsonObject_value. rewrite Hfind.
    apply Z.eqb_neq in Hver. rewrite Hver. reflexivity.
Qed.

Lemma load_reason_nonempty (r : QString) :
  LoadFailsAt E fs fileName r -> r <> "".
Proof. intros H. destruct H; discriminate. Qed.

(** Conversely, whenever [load] returns false it gave up at one of the
    steps, and left the registry and the settings store alone. *)
Lemma load_false_inv (r : QString) (pm' : ProjectModel.t)
    (settings' : QSettings) :
  load E fs fileName reason pm settings
    = Returned (false, r, pm', settings') ->
  pm' = pm /\ settings' = settings /\ LoadFailsAt E fs fileName r.
Proof.
  unfold load, load_failed.
  destruct (fs fileName) as [content|] eqn:Hopen.
  2:{ intros [= <- <- <-]. repeat split. now constructor. }
  destruct (TarIn_read E content) as [fileMap|] eqn:Htar.
  2:{ intros [= <- <- <-]. repeat split. econstructor 2; eauto. }
  destruct (fileMap !! "data.json") as [dataRec|] eqn:Hdata.
  2:{ intros [= <- <- <-]. repeat split. econstructor 3; eauto. }
  assert (Hrec : data_record E fs fileName dataRec)
    by (exists content, fileMap; auto).
  destruct (record_text_length dataRec =? 0)%nat eqn:Hlen.
  { intros [= <- <- <-]. repeat split. apply Nat.eqb_eq in Hlen.
    econstructor 4; eauto. }
  apply Nat.eqb_neq in Hlen.
  destruct (QJsonDocument_fromJson E _) as [error doc] eqn:Hparse.
  assert (Hdoc : data_parse E fs fileName error doc)
    by (exists dataRec; auto).
  destruct error as [|errorString].
  2:{ intros [= <- <- <-]. repeat split. econstructor 5; eauto. }
  destruct (QJsonDocument_isNull doc || QJsonDocument_isEmpty doc
            || negb (QJsonDocument_isObject doc)) eqn:Hobj.
  { intros [= <- <- <-]. repeat split. econstructor 6; eauto.
    intros o ->. cbn in Hobj. now destruct o. }
  destruct doc as [|a|o];
    [ discriminate Hobj
    | cbn in Hobj; rewrite orb_true_r in Hobj; discriminate Hobj
    | ].
  cbn [QJsonDocument_object].
  assert (Hne : o <> []) by (intros ->; discriminate).
  unfold QJsonObject_contains, QJsonObject_value.
  destruct (QJsonObject_find o "version") as [v|] eqn:Hfind; cbn [negb].
  2:{ intros [= <- <- <-]. repeat split. econstructor 7; eauto. }
  destruct (toInt_or v 0 =? PROJECT_SAVE_FILE_VERSION) eqn:Hver; cbn [negb].
  2:{ intros [= <- <- <-]. repeat split. apply Z.eqb_neq in Hver.
      econstructor 8; eauto. }
  intros H.
  apply bind_Returned_inv in H as (imageMap & _ & H).
  apply bind_Returned_inv in H as (pm2 & _ & H).
  discriminate.
Qed.

End LoadFailure.

(** C1. When [load] gives up at any of its failing steps (the file cannot
    be opened, the archive cannot be read, the data record is missing or
    empty, the text does not parse, the document is not an object, the
    version is missing or wrong), it returns false with the non-empty reason
    string of that step, and the registry (folders, parts, composites and
    file name) and the settings store are exactly those before the call. *)
Theorem load_failure_leaves_registry_untouched
    (E : Platform) (fs : FileSystem) (fileName reason : QString)
    (pm : ProjectModel.t) (settings : QSettings) (r : QString) :
  LoadFailsAt E fs fileName r ->
  load E fs fileName reason pm settings = Returned (false, r, pm, settings) /\
  r <> "".
Proof.
  intros H. split.
  - now apply load_fails_at_step.
  - eapply load_reason_nonempty, H.
Qed.

Lemma load_failure_leaves_registry_untouched_witness :
  LoadFailsAt (Fixture.platform None (NoError, DocNull)) Fixture.files
    "project.mqs" "Cannot read project file" /\
  load (Fixture.platform None (NoError, DocNull)) Fixture.files
       "project.mqs" "" Fixture.old_registry ∅
    = Returned (false, "Cannot read project file", Fixture.old_registry, ∅) /\
  "Cannot read project file" <> "".
Proof.
  assert (H : LoadFailsAt (Fixture.platform None (NoError, DocNull))
                Fixture.files "project.mqs" "Cannot read project file").
  { apply fails_archive with (content := [Byte.x31]); reflexivity. }
  split; [exact H|].
  exact (load_failure_leaves_registry_untouched
           (Fixture.platform None (NoError, DocNull)) Fixture.files
           "project.mqs" "" Fixture.old_registry ∅
           "Cannot read project file" H).
Defined.

(** C4. A data record whose JSON object lacks the version field, holds a
    version that is not a number, or holds a number other than the supported
    version 1, makes [load] return false with one of the schema reasons; the
    registry is the one before the call, so that no folder, part or
    composite has been added. *)
Theorem version_gate_rejects
    (E : Platform) (fs : FileSystem) (fileName reason : QString)
    (pm : ProjectModel.t) (settings : QSettings) (o : QJsonObject) :
  data_parse E fs fileName NoError (DocObject o) ->
  version_rejected o ->
  exists r,
    load E fs fileName reason pm settings = Returned (false, r, pm, settings) /\
    In r schema_reasons.
Proof.
  intros Hparse Hrej.
  destruct o as [|it o'] eqn:Ho.
  { eexists. split.
    - apply load_fails_at_step. apply fails_not_object with (doc := DocObject []).
      + exact Hparse.
      + now intros o0 [= <-].
    - cbn. auto. }
  rewrite <- Ho in *.
  assert (Hne : o <> []) by (rewrite Ho; discriminate).
  clear Ho it o'.
  destruct Hrej as [Hnone | [(v & Hfind & Hv) | (d & Hfind & Hd)]].
  - eexists. split.
    + apply load_fails_at_step. eapply fails_version_missing; eauto.
    + cbn. auto.
  - eexists. split.
    + apply load_fails_at_step. eapply fails_version_wrong; eauto.
      rewrite toInt_or_not_double by exact Hv. discriminate.
    + cbn. auto.
  - eexists. split.
    + apply load_fails_at_step. eapply fails_version_wrong; eauto.
      intros Heq. apply Hd. now apply toInt_or_version_1.
    + cbn. auto.
Qed.

Lemma version_gate_rejects_witness :
  exists r,
    load (Fixture.platform (Some Fixture.data_archive)
            (NoError, DocObject [("version", JDouble (inject_Z 2))]))
         Fixture.files "project.mqs" "" Fixture.old_registry ∅
      = Returned (false, r, Fixture.old_registry, ∅) /\
    In r schema_reasons.
Proof.
  apply (version_gate_rejects _ _ _ _ _ _
           [("version", JDouble (inject_Z 2))]).
  - exists [Byte.x7b; Byte.x7d; Byte.x00]. split; [|split].
    + exists [Byte.x31], Fixture.data_archive. repeat split; reflexivity.
    + discriminate.
    + reflexivity.
  - right. right. exists (inject_Z 2). split; [reflexivity|].
    intros H. discriminate H.
Defined.

(** ** save *)

(** C3, as the code has it. [save] returns false for every registry and
    every path; it builds no document and no image records and writes no
    file: the registry and the file system are those before the call.
    [PartToJson] adds nothing to the record or to the image map. *)
Theorem save_is_disabled
    (fs : FileSystem) (fileName : QString) (pm : ProjectModel.t) :
  save fs fileName pm = (false, pm, fs) /\
  forall (name : QString) (part : Part.t) (obj : QJsonObject)
         (imageMap : gmap QString QImage),
    PartToJson name part obj imageMap = (obj, imageMap).
Proof. split; [reflexivity|]. intros name part obj imageMap. reflexivity. Qed.

(** C3 fails as stated: saving a registry with one folder reports failure
    and leaves no file under the given path. *)
Lemma save_reports_failure :
  fst (fst (save Fixture.files "out.mqs" Fixture.old_registry)) = false /\
  snd (save Fixture.files "out.mqs" Fixture.old_registry) "out.mqs" = None.
Proof. split; reflexivity. Qed.

(** ** A successful load *)

Lemma foldlM_pure {A B : Type} (f : B -> A -> B) (l : list A) (b : B) :
  foldlM (fun b a => Returned (f b a)) b l = Returned (fold_left f l b).
Proof.
  revert b. induction l as [|a l IH]; intros b; cbn; [reflexivity|apply IH].
Qed.

Lemma foldlM_invariant {A B : Type} (f : B -> A -> Outcome B) (I : B -> Prop)
    (l : list A) :
  (forall b a b', In a l -> f b a = Returned b' -> I b -> I b') ->
  forall b r, I b -> foldlM f b l = Returned r -> I r.
Proof.
  induction l as [|a l IH]; intros Hstep b r Hb Hrun.
  - cbn in Hrun. now injection Hrun as <-.
  - apply foldlM_cons_Returned in Hrun as (b' & Hfa & Hrun).
    eapply IH; [| |exact Hrun].
    + intros b0 a0 b0' Hin. apply Hstep. now right.
    + eapply Hstep; [now left|exact Hfa|exact Hb].
Qed.

Section FoldInsert.
Context {A V : Type}.
Variable key : A -> QUuid.
Variable P : A -> V -> Prop.
Variable step : gmap QUuid V -> A -> Outcome (gmap QUuid V).
Hypothesis step_inserts :
  forall m it m', step m it = Returned m' ->
                  exists v, P it v /\ m' = <[key it := v]> m.

(** A loop that inserts one decoded value per entry: the keys of no entry
    keep their old value, the key of an entry holds a value decoded from
    an entry with that key. *)
Lemma foldlM_insert_spec (l : list A) :
  forall (m r : gmap QUuid V),
    foldlM step m l = Returned r ->
    (forall u, ~ In u (map key l) -> r !! u = m !! u) /\
    (forall u, In u (map key l) ->
               exists it v, In it l /\ key it = u /\ P it v /\
                            r !! u = Some v).
Proof.
  induction l as [|a l IH]; intros m r Hrun.
  - cbn in Hrun. injection Hrun as <-. split; [reflexivity|].
    intros u [].
  - apply foldlM_cons_Returned in Hrun as (m1 & Hstep & Hrun).
    apply step_inserts in Hstep as (v & Hv & ->).
    destruct (IH _ _ Hrun) as [Hout Hin]. split.
    + intros u Hu. cbn in Hu.
      rewrite Hout by tauto.
      apply lookup_insert_ne. tauto.
    + intros u Hu.
      destruct (in_dec N.eq_dec u (map key l)) as [Hl|Hl].
      * destruct (Hin u Hl) as (it & w & Hit & Hk & Hw & Hr).
        exists it, w. repeat split; auto. now right.
      * destruct Hu as [Hu|Hu]; [|contradiction].
        exists a, v. repeat split; auto; [now left|].
        rewrite Hout by exact Hl. rewrite <- Hu. apply lookup_insert_eq.
Qed.
End FoldInsert.

Section Refs.
Variable E : Platform.

Lemma JsonToFolder_ref (obj : QJsonObject) (folder : Folder.t) :
  Folder.ref (JsonToFolder E obj folder) = Folder.ref folder.
Proof.
  unfold JsonToFolder. now destruct (QJsonObject_contains obj "parent").
Qed.

Lemma JsonToPart_entry_ref (imageMap : gmap QString QImage)
    (part part' : Part.t) (entry : QString * QJsonValue) :
  JsonToPart_entry E imageMap part entry = Returned part' ->
  Part.ref part' = Part.ref part.
Proof.
  unfold JsonToPart_entry.
  destruct (String.eqb (fst entry) "properties").
  - now intros [= <-].
  - destruct (negb (QJsonObject_isEmpty (toObject (snd entry)))).
    + intros H. apply bind_Returned_inv in H as (m & _ & H).
      now injection H as <-.
    + now intros [= <-].
Qed.

Lemma JsonToPart_ref (obj : QJsonObject) (imageMap : gmap QString QImage)
    (part part' : Part.t) :
  JsonToPart E obj imageMap part = Returned part' ->
  Part.ref part' = Part.ref part.
Proof.
  unfold JsonToPart. intros H.
  eapply (foldlM_invariant _ (fun p => Part.ref p = Part.ref part)) in H.
  - exact H.
  - intros b a b' _ Hstep Hb.
    rewrite (JsonToPart_entry_ref _ _ _ _ Hstep). exact Hb.
  - now destruct (QJsonObject_contains obj "parent").
Qed.

Lemma JsonToComposite_children_ref (l : list QJsonValue)
    (st : Composite.t * Z) :
  Composite.ref (fst (fold_left (JsonToComposite_child E) l st))
    = Composite.ref (fst st).
Proof.
  revert st. induction l as [|v l IH]; intros st; cbn; [reflexivity|].
  now rewrite IH.
Qed.

Lemma JsonToComposite_ref (obj : QJsonObject) (comp : Composite.t) :
  Composite.ref (JsonToComposite E obj comp) = Composite.ref comp.
Proof. unfold JsonToComposite. now rewrite JsonToComposite_children_ref. Qed.

End Refs.

Section LoadData.
Variable E : Platform.
Variable dataObj : QJsonObject.

Lemma load_folders_merged (old : gmap QUuid Folder.t) :
  merged old
    (fold_left (load_folder E)
       (toObject (QJsonObject_value dataObj "folders")) old)
    (document_uuids E dataObj "folders") (decoded_folder E dataObj).
Proof.
  pose proof (foldlM_pure (load_folder E)
                (toObject (QJsonObject_value dataObj "folders")) old) as Hrun.
  apply (foldlM_insert_spec
           (fun it => QUuid_fromString E (fst it))
           (fun it f =>
              f = JsonToFolder E (toObject (snd it))
                    (Folder.mk
                       (mkAssetRef (QUuid_fromString E (fst it))
                          AssetType.Folder)
                       "" (AssetRef_new E)))) in Hrun.
  - destruct Hrun as [Hout Hin]. split; [exact Hout|].
    intros u Hu. destruct (Hin u Hu) as ([key v] & f & Hit & Hk & Hf & Hr).
    cbn in Hk, Hf. subst u. exists f. split; [|exact Hr].
    exists (toObject v). split; [|exact Hf].
    exists key, v. auto.
  - intros m it m' [= <-]. eexists. split; [reflexivity|].
    unfold load_folder. now rewrite JsonToFolder_ref.
Qed.

Lemma load_composites_merged (old : gmap QUuid Composite.t) :
  merged old
    (fold_left (load_composite E)
       (toObject (QJsonObject_value dataObj "comps")) old)
    (document_uuids E dataObj "comps") (decoded_composite E dataObj).
Proof.
  pose proof (foldlM_pure (load_composite E)
                (toObject (QJsonObject_value dataObj "comps")) old) as Hrun.
  apply (foldlM_insert_spec
           (fun it => QUuid_fromString E (fst it))
           (fun it c =>
              c = JsonToComposite E (toObject (snd it))
                    (Composite.mk
                       (mkAssetRef (QUuid_fromString E (fst it))
                          AssetType.Composite)
                       "" "" (AssetRef_new E) 0 [] ∅))) in Hrun.
  - destruct Hrun as [Hout Hin]. split; [exact Hout|].
    intros u Hu. destruct (Hin u Hu) as ([key v] & c & Hit & Hk & Hc & Hr).
    cbn in Hk, Hc. subst u. exists c. split; [|exact Hr].
    exists (toObject v). split; [|exact Hc].
    exists key, v. auto.
  - intros m it m' [= <-]. eexists. split; [reflexivity|].
    unfold load_composite. now rewrite JsonToComposite_ref.
Qed.

Lemma load_parts_merged (imageMap : gmap QString QImage)
    (old new : gmap QUuid Part.t) :
  foldlM (load_part E imageMap) old
    (toObject (QJsonObject_value dataObj "parts")) = Returned new ->
  merged old new (document_uuids E dataObj "parts")
    (decoded_part E dataObj imageMap).
Proof.
  intros Hrun.
  apply (foldlM_insert_spec
           (fun it => QUuid_fromString E (fst it))
           (fun it p =>
              JsonToPart E (toObject (snd it)) imageMap
                (Part.mk
                   (mkAssetRef (QUuid_fromString E (fst it)) AssetType.Part)
                   "" (AssetRef_new E) "" ∅) = Returned p)) in Hrun.
  - destruct Hrun as [Hout Hin]. split; [exact Hout|].
    intros u Hu. destruct (Hin u Hu) as ([key v] & p & Hit & Hk & Hp & Hr).
    cbn in Hk, Hp. subst u. exists p. split; [|exact Hr].
    exists (toObject v). split; [|exact Hp].
    exists key, v. auto.
  - intros m it m' Hstep. unfold load_part in Hstep.
    apply bind_Returned_inv in Hstep as (p & Hp & [= <-]).
    exists p. split; [exact Hp|].
    now rewrite (JsonToPart_ref _ _ _ _ _ Hp).
Qed.

(** The guards on emptiness around the three loops change nothing. *)
Lemma guarded_fold_left {B : Type} (f : B -> QString * QJsonValue -> B)
    (o : QJsonObject) (b : B) :
  (if negb (QJsonObject_isEmpty o) then fold_left f o b else b)
    = fold_left f o b.
Proof. now destruct o. Qed.

Lemma guarded_foldlM {B : Type}
    (f : B -> QString * QJsonValue -> Outcome B) (o : QJsonObject) (b : B) :
  (if negb (QJsonObject_isEmpty o) then foldlM f b o else Returned b)
    = foldlM f b o.
Proof. now destruct o. Qed.

Lemma load_data_merged (imageMap : gmap QString QImage)
    (fileName : QString) (pm pm' : ProjectModel.t) :
  load_data E dataObj imageMap fileName pm = Returned pm' ->
  ProjectModel.fileName pm' = fileName /\
  merged (ProjectModel.folders pm) (ProjectModel.folders pm')
    (document_uuids E dataObj "folders") (decoded_folder E dataObj) /\
  merged (ProjectModel.parts pm) (ProjectModel.parts pm')
    (document_uuids E dataObj "parts") (decoded_part E dataObj imageMap) /\
  merged (ProjectModel.composites pm) (ProjectModel.composites pm')
    (document_uuids E dataObj "comps") (decoded_composite E dataObj).
Proof.
  unfold load_data. rewrite !guarded_fold_left, guarded_foldlM.
  intros H. apply bind_Returned_inv in H as (parts' & Hparts & [= <-]).
  cbn. repeat split.
  - apply load_folders_merged.
  - apply load_folders_merged.
  - apply (load_parts_merged _ _ _ Hparts).
  - apply (load_parts_merged _ _ _ Hparts).
  - apply load_composites_merged.
  - apply load_composites_merged.
Qed.

End LoadData.

Lemma load_true_inv (E : Platform) (fs : FileSystem)
    (fileName reason : QString) (pm : ProjectModel.t) (settings : QSettings)
    (r : QString) (pm' : ProjectModel.t) (settings' : QSettings) :
  load E fs fileName reason pm settings
    = Returned (true, r, pm', settings') ->
  exists dataObj imageMap,
    data_parse E fs fileName NoError (DocObject dataObj) /\
    r = reason /\
    load_data E dataObj imageMap fileName pm = Returned pm'.
Proof.
  unfold load, load_failed.
  destruct (fs fileName) as [content|] eqn:Hopen; [|discriminate].
  destruct (TarIn_read E content) as [fileMap|] eqn:Htar; [|discriminate].
  destruct (fileMap !! "data.json") as [dataRec|] eqn:Hdata; [|discriminate].
  destruct (record_text_length dataRec =? 0)%nat eqn:Hlen; [discriminate|].
  apply Nat.eqb_neq in Hlen.
  destruct (QJsonDocument_fromJson E _) as [error doc] eqn:Hparse.
  destruct error as [|errorString]; [|discriminate].
  destruct (QJsonDocument_isNull doc || QJsonDocument_isEmpty doc
            || negb (QJsonDocument_isObject doc)) eqn:Hobj; [discriminate|].
  destruct doc as [|a|o];
    [ discriminate Hobj
    | cbn in Hobj; rewrite orb_true_r in Hobj; discriminate Hobj
    | ].
  cbn [QJsonDocument_object].
  destruct (negb (QJsonObject_contains o "version")); [discriminate|].
  destruct (negb (toInt_or (QJsonObject_value o "version") 0
                  =? PROJECT_SAVE_FILE_VERSION)); [discriminate|].
  intros H.
  apply bind_Returned_inv in H as (imageMap & _ & H).
  apply bind_Returned_inv in H as (pm2 & Hdata2 & [= <- <- <-]).
  exists o, imageMap. repeat split; [|exact Hdata2].
  exists dataRec. repeat split; [|exact Hlen|exact Hparse].
  exists content, fileMap. auto.
Qed.

(** C2, as the code has it. [load] never clears the registry. After a
    successful load the remembered file name is the given path and each of
    the three collections is the one before the call with the assets of the
    document inserted: an asset of the prior state stays unless the document
    has an entry with its uuid, and under every uuid of the document the
    collection holds an asset decoded from an entry with that uuid. *)
Theorem load_success_merges_document
    (E : Platform) (fs : FileSystem) (fileName reason : QString)
    (pm : ProjectModel.t) (settings : QSettings)
    (r : QString) (pm' : ProjectModel.t) (settings' : QSettings) :
  load E fs fileName reason pm settings
    = Returned (true, r, pm', settings') ->
  exists dataObj imageMap,
    data_parse E fs fileName NoError (DocObject dataObj) /\
    ProjectModel.fileName pm' = fileName /\
    merged (ProjectModel.folders pm) (ProjectModel.folders pm')
      (document_uuids E dataObj "folders") (decoded_folder E dataObj) /\
    merged (ProjectModel.parts pm) (ProjectModel.parts pm')
      (document_uuids E dataObj "parts") (decoded_part E dataObj imageMap) /\
    merged (ProjectModel.composites pm) (ProjectModel.composites pm')
      (document_uuids E dataObj "comps") (decoded_composite E dataObj).
Proof.
  intros H. apply load_true_inv in H as (dataObj & imageMap & Hdoc & _ & H).
  exists dataObj, imageMap. split; [exact Hdoc|].
  now apply load_data_merged.
Qed.

Lemma load_success_merges_document_witness :
  exists dataObj imageMap,
    data_parse Fixture.one_folder_platform Fixture.files "project.mqs"
      NoError (DocObject dataObj) /\
    ProjectModel.fileName Fixture.merged_registry = "project.mqs" /\
    merged (ProjectModel.folders Fixture.old_registry)
      (ProjectModel.folders Fixture.merged_registry)
      (document_uuids Fixture.one_folder_platform dataObj "folders")
      (decoded_folder Fixture.one_folder_platform dataObj) /\
    merged (ProjectModel.parts Fixture.old_registry)
      (ProjectModel.parts Fixture.merged_registry)
      (document_uuids Fixture.one_folder_platform dataObj "parts")
      (decoded_part Fixture.one_folder_platform dataObj imageMap) /\
    merged (ProjectModel.composites Fixture.old_registry)
      (ProjectModel.composites Fixture.merged_registry)
      (document_uuids Fixture.one_folder_platform dataObj "comps")
      (decoded_composite Fixture.one_folder_platform dataObj).
Proof.
  apply (load_success_merges_document Fixture.one_folder_platform
           Fixture.files "project.mqs" "" Fixture.old_registry ∅ "" _ ∅).
  vm_compute. reflexivity.
Defined.

(** C2 fails as stated: a document of version 1 whose only asset is the
    folder 0x9 is loaded into a registry that holds the folder 7. The load
    succeeds, the document has no entry for uuid 7, and folder 7 of the
    prior state, which [clear] would have dropped, is still in the registry
    afterwards. *)
Lemma load_keeps_prior_assets :
  load Fixture.one_folder_platform Fixture.files "project.mqs" ""
       Fixture.old_registry ∅
    = Returned (true, "", Fixture.merged_registry, ∅) /\
  document_uuids Fixture.one_folder_platform
    (QJsonDocument_object Fixture.one_folder_document) "folders" = [9%N] /\
  ProjectModel.folders Fixture.old_registry !! 7%N = Some Fixture.old_folder /\
  ProjectModel.folders (clear Fixture.old_registry) !! 7%N = None /\
  ProjectModel.folders Fixture.merged_registry !! 7%N
    = Some Fixture.old_folder.
Proof. repeat split; vm_compute; reflexivity. Qed.

(** ** Composite records *)

Section CompositeDecoding.
Variable E : Platform.

Lemma JsonToComposite_child_eq (st : Composite.t * Z) (v : QJsonValue) :
  JsonToComposite_child E st v =
  (Composite.mk (Composite.ref (fst st)) (Composite.name (fst st))
     (Composite.properties (fst st)) (Composite.parent (fst st))
     (Composite.root (fst st))
     (Composite.children (fst st) ++ [child_entry_name v])
     (<[child_entry_name v := child_of_entry E v (snd st)]>
        (Composite.childrenMap (fst st))),
   snd st + 1).
Proof. reflexivity. Qed.

(** The state of the loop over the [parts] array after the entries [vs],
    started with the composite [comp0] and the index [i0]. *)
Lemma JsonToComposite_children_spec (vs : list QJsonValue)
    (comp0 : Composite.t) (i0 : Z) :
  let r := fold_left (JsonToComposite_child E) vs (comp0, i0) in
  let names := map child_entry_name vs in
  Composite.children (fst r) = Composite.children comp0 ++ names /\
  snd r = i0 + Z.of_nat (length vs) /\
  (Composite.name (fst r) = Composite.name comp0 /\
   Composite.properties (fst r) = Composite.properties comp0 /\
   Composite.parent (fst r) = Composite.parent comp0 /\
   Composite.root (fst r) = Composite.root comp0) /\
  (forall n, ~ In n names ->
     Composite.childrenMap (fst r) !! n = Composite.childrenMap comp0 !! n) /\
  (forall n, In n names ->
     exists (j : nat) (v : QJsonValue),
       vs !! j = Some v /\ last_occurrence names n j /\
       Composite.childrenMap (fst r) !! n
         = Some (child_of_entry E v (i0 + Z.of_nat j))).
Proof.
  induction vs as [|v vs IH] using rev_ind.
  - cbn. rewrite app_nil_r. repeat split; try lia.
  - cbn zeta in *. rewrite fold_left_app. cbn [fold_left].
    destruct IH as (Hch & Hidx & (Hn & Hp & Hpa & Hr) & Hout & Hin).
    rewrite JsonToComposite_child_eq. cbn [fst snd Composite.children
      Composite.childrenMap Composite.name Composite.properties
      Composite.parent Composite.root].
    rewrite map_app, length_app. cbn [map length].
    split; [rewrite Hch; now rewrite app_assoc|].
    split; [lia|]. split; [auto|]. split.
    + intros n Hn'. rewrite in_app_iff in Hn'. cbn in Hn'.
      rewrite lookup_insert_ne by tauto. apply Hout. tauto.
    + intros n Hn'.
      destruct (string_dec (child_entry_name v) n) as [Heq|Hne].
      * exists (length vs), v. split; [|split].
        -- rewrite lookup_app_r by lia. now rewrite Nat.sub_diag.
        -- split.
           ++ rewrite lookup_app_r by (rewrite length_map; lia).
              rewrite length_map, Nat.sub_diag. cbn. now rewrite Heq.
           ++ intros j' Hj'. rewrite lookup_ge_None_2; [discriminate|].
              rewrite length_app, length_map. cbn. lia.
        -- rewrite Heq, lookup_insert_eq, Hidx. reflexivity.
      * rewrite in_app_iff in Hn'. cbn in Hn'.
        destruct Hn' as [Hn'|[Hn'|[]]]; [|contradiction].
        destruct (Hin n Hn') as (j & v0 & Hv0 & [Hj Hlast] & Hlook).
        exists j, v0. split; [|split].
        -- now apply lookup_app_l_Some.
        -- split; [now apply lookup_app_l_Some|].
           intros j' Hj'.
           destruct (decide (j' < length (map child_entry_name vs))%nat)
             as [Hlt|Hge].
           ++ rewrite lookup_app_l by exact Hlt. now apply Hlast.
           ++ rewrite lookup_app_r by lia.
              destruct (j' - length (map child_entry_name vs))%nat;
                intros Hx.
              ** change (Some (child_entry_name v) = Some n) in Hx.
                 congruence.
              ** discriminate Hx.
        -- rewrite lookup_insert_ne by exact Hne. exact Hlook.
Qed.

End CompositeDecoding.

Section CompositeSync.
Variable E : Platform.
Variable obj : QJsonObject.
Variable target : Composite.t.
Hypothesis target_children : Composite.children target = [].
Hypothesis target_map : Composite.childrenMap target = ∅.

Local Abbreviation c := (JsonToComposite E obj target).

Lemma decoded_children : Composite.children c = composite_child_names obj.
Proof.
  unfold JsonToComposite.
  match goal with
  | |- context [fold_left _ ?vs (?comp0, ?i0)] =>
      destruct (JsonToComposite_children_spec E vs comp0 i0) as (H & _)
  end.
  rewrite H. cbn. now rewrite target_children.
Qed.

Lemma decoded_map_lookup (n : QString) :
  (~ In n (composite_child_names obj) ->
   Composite.childrenMap c !! n = None) /\
  (In n (composite_child_names obj) ->
   exists (j : nat) (v : QJsonValue),
     toArray (QJsonObject_value obj "parts") !! j = Some v /\
     last_occurrence (composite_child_names obj) n j /\
     Composite.childrenMap c !! n
       = Some (child_of_entry E v (Z.of_nat j))).
Proof.
  unfold JsonToComposite.
  match goal with
  | |- context [fold_left _ ?vs (?comp0, ?i0)] =>
      destruct (JsonToComposite_children_spec E vs comp0 i0)
        as (_ & _ & _ & Hout & Hin)
  end.
  split.
  - intros Hn. rewrite (Hout n Hn). cbn. rewrite target_map.
    apply lookup_empty.
  - intros Hn. destruct (Hin n Hn) as (j & v & Hv & Hlast & Hlook).
    exists j, v. auto.
Qed.

Lemma decoded_children_in_map : children_in_map c.
Proof.
  intros n Hn. rewrite decoded_children in Hn.
  destruct (proj2 (decoded_map_lookup n) Hn) as (j & v & _ & _ & ->). eauto.
Qed.

Lemma decoded_map_keys_in_children : map_keys_in_children c.
Proof.
  intros n [ch Hch]. rewrite decoded_children.
  destruct (in_dec string_dec n (composite_child_names obj)) as [Hin|Hout];
    [exact Hin|].
  rewrite (proj1 (decoded_map_lookup n) Hout) in Hch. discriminate.
Qed.

(** The index of an entry of the map is the last position of its name in
    the ordered list. *)
Lemma decoded_index (n : QString) (ch : Child.t) :
  Composite.childrenMap c !! n = Some ch ->
  0 <= Child.index ch /\
  last_occurrence (Composite.children c) n (Z.to_nat (Child.index ch)).
Proof.
  intros Hch.
  assert (Hin : In n (composite_child_names obj)).
  { rewrite <- decoded_children. apply decoded_map_keys_in_children. eauto. }
  destruct (proj2 (decoded_map_lookup n) Hin) as (j & v & _ & Hlast & Hlook).
  rewrite Hlook in Hch. injection Hch as <-. cbn [child_of_entry Child.index].
  rewrite Nat2Z.id, decoded_children. split; [lia|exact Hlast].
Qed.

Lemma decoded_indices_unique : indices_unique c.
Proof.
  intros n1 n2 c1 c2 H1 H2 Heq.
  destruct (decoded_index _ _ H1) as (_ & Hl1 & _).
  destruct (decoded_index _ _ H2) as (_ & Hl2 & _).
  rewrite Heq in Hl1. congruence.
Qed.

Lemma decoded_sync_of_distinct_names :
  NoDup (composite_child_names obj) ->
  Composite_sync c /\ indices_in_document_order c.
Proof.
  intros Hnd. split.
  - split; [apply decoded_children_in_map|].
    split; [apply decoded_map_keys_in_children|].
    now rewrite decoded_children.
  - intros i n Hi.
    assert (Hin : In n (Composite.children c)).
    { apply list_elem_of_In. eapply list_elem_of_lookup_2, Hi. }
    destruct (decoded_children_in_map n Hin) as [ch Hch].
    exists ch. split; [exact Hch|].
    destruct (decoded_index _ _ Hch) as (Hpos & Hl & _).
    rewrite decoded_children in Hi, Hl.
    pose proof (NoDup_lookup _ _ _ _ Hnd Hi Hl) as Hij. lia.
Qed.

End CompositeSync.

(** C9, as the code has it. For every composite record decoded into a fresh
    composite, [children] lists the names of the [parts] array in document
    order, every name in [children] has one entry in [childrenMap], every
    key of [childrenMap] occurs in [children], and the entry of a name
    carries as [index] the last position of that name, so that the indices
    of distinct entries differ. A name that is repeated in the record occurs
    as often in [children]; when the names of the record are pairwise
    distinct the sync invariant holds in full, every key occurring exactly
    once, with every entry indexed by its position. *)
Theorem JsonToComposite_sync
    (E : Platform) (obj : QJsonObject) (target : Composite.t) :
  Composite.children target = [] ->
  Composite.childrenMap target = ∅ ->
  Composite.children (JsonToComposite E obj target)
    = composite_child_names obj /\
  children_in_map (JsonToComposite E obj target) /\
  map_keys_in_children (JsonToComposite E obj target) /\
  indices_unique (JsonToComposite E obj target) /\
  (forall n ch,
     Composite.childrenMap (JsonToComposite E obj target) !! n = Some ch ->
     0 <= Child.index ch /\
     last_occurrence (Composite.children (JsonToComposite E obj target)) n
       (Z.to_nat (Child.index ch))) /\
  (NoDup (composite_child_names obj) ->
   Composite_sync (JsonToComposite E obj target) /\
   indices_in_document_order (JsonToComposite E obj target)).
Proof.
  intros Hch Hmap. repeat apply conj.
  - now apply decoded_children.
  - now apply decoded_children_in_map.
  - now apply decoded_map_keys_in_children.
  - now apply decoded_indices_unique.
  - now apply decoded_index.
  - now apply decoded_sync_of_distinct_names.
Qed.

Lemma JsonToComposite_sync_witness :
  Composite.children
    (JsonToComposite Fixture.one_folder_platform
       [("parts", JArray [Fixture.child_record "a"; Fixture.child_record "b"])]
       Fixture.new_composite)
    = composite_child_names
        [("parts", JArray [Fixture.child_record "a"; Fixture.child_record "b"])]
  /\
  children_in_map
    (JsonToComposite Fixture.one_folder_platform
       [("parts", JArray [Fixture.child_record "a"; Fixture.child_record "b"])]
       Fixture.new_composite) /\
  map_keys_in_children
    (JsonToComposite Fixture.one_folder_platform
       [("parts", JArray [Fixture.child_record "a"; Fixture.child_record "b"])]
       Fixture.new_composite) /\
  indices_unique
    (JsonToComposite Fixture.one_folder_platform
       [("parts", JArray [Fixture.child_record "a"; Fixture.child_record "b"])]
       Fixture.new_composite) /\
  (forall n ch,
     Composite.childrenMap
       (JsonToComposite Fixture.one_folder_platform
          [("parts",
            JArray [Fixture.child_record "a"; Fixture.child_record "b"])]
          Fixture.new_composite) !! n = Some ch ->
     0 <= Child.index ch /\
     last_occurrence
       (Composite.children
          (JsonToComposite Fixture.one_folder_platform
             [("parts",
               JArray [Fixture.child_record "a"; Fixture.child_record "b"])]
             Fixture.new_composite)) n
       (Z.to_nat (Child.index ch))) /\
  (NoDup
     (composite_child_names
        [("parts",
          JArray [Fixture.child_record "a"; Fixture.child_record "b"])]) ->
   Composite_sync
     (JsonToComposite Fixture.one_folder_platform
        [("parts", JArray [Fixture.child_record "a"; Fixture.child_record "b"])]
        Fixture.new_composite) /\
   indices_in_document_order
     (JsonToComposite Fixture.one_folder_platform
        [("parts", JArray [Fixture.child_record "a"; Fixture.child_record "b"])]
        Fixture.new_composite)).
Proof.
  apply (JsonToComposite_sync Fixture.one_folder_platform
           [("parts",
             JArray [Fixture.child_record "a"; Fixture.child_record "b"])]
           Fixture.new_composite); reflexivity.
Defined.

(** C9 fails as stated: a record whose [parts] array names the child a
    twice is decoded to a composite whose [children] holds a twice, while
    [childrenMap] has the single key a; the key does not occur exactly once
    in [children]. *)
Lemma JsonToComposite_repeated_name :
  Composite.children
    (JsonToComposite Fixture.one_folder_platform
       [("parts", JArray [Fixture.child_record "a"; Fixture.child_record "a"])]
       Fixture.new_composite) = ["a"; "a"] /\
  ~ Composite_sync
      (JsonToComposite Fixture.one_folder_platform
         [("parts",
           JArray [Fixture.child_record "a"; Fixture.child_record "a"])]
         Fixture.new_composite).
Proof.
  split; [reflexivity|].
  intros (_ & _ & Hnd).
  change (NoDup ["a"; "a"]) in Hnd.
  apply NoDup_cons in Hnd as [Hnotin _].
  apply Hnotin. now left.
Qed.

(** ** Encoding then decoding *)

Lemma AssetRef_eq_refl (r : AssetRef) : AssetRef_eq r r = true.
Proof.
  unfold AssetRef_eq. rewrite N.eqb_refl.
  destruct (type r); cbn; apply orb_true_r.
Qed.

Lemma AssetRef_eq_null (a b : AssetRef) :
  AssetRef_isNull a = true -> AssetRef_isNull b = true ->
  AssetRef_eq a b = true.
Proof.
  unfold AssetRef_isNull, AssetRef_eq. now intros -> ->.
Qed.

Section RoundTrip.
Variable E : Platform.

Lemma int_round_trip (n : Z) :
  int_range n -> toVariant_toInt E (QJsonValue_of_int n) = n.
Proof.
  unfold int_range, INT_MIN, INT_MAX. intros Hn.
  unfold QJsonValue_of_int, toVariant_toInt, double_round_int, inject_Z,
    Qplus, Qfloor.
  cbn [Qnum Qden].
  replace (n * Z.pos 2 + 1 * Z.pos 1) with (1 + n * 2) by lia.
  change (Z.pos (1 * 2)) with 2.
  rewrite Z.div_add by lia. change (1 / 2) with 0.
  unfold wrap32. rewrite Z.mod_small; lia.
Qed.

Lemma ints_round_trip (l : list Z) :
  Forall int_range l ->
  map (toVariant_toInt E) (map QJsonValue_of_int l) = l.
Proof.
  induction 1 as [|n l Hn _ IH]; cbn [map]; [reflexivity|].
  now rewrite int_round_trip, IH.
Qed.

Hypothesis QUuid_round_trip :
  forall u, QUuid_fromString E (QUuid_toString E u) = u.

(** *** Folder *)

Lemma Folder_round_trip (f target : Folder.t) :
  folder_ref (Folder.parent f) ->
  AssetRef_isNull (Folder.parent target) = true ->
  Folder.ref target = Folder.ref f ->
  Folder_equal (JsonToFolder E (FolderToJson E (Folder.name f) f []) target)
               f.
Proof.
  intros Hparent Hnull Href. unfold FolderToJson.
  destruct (AssetRef_isNull (Folder.parent f)) eqn:Hf; cbn [negb].
  - split; [|split].
    + rewrite JsonToFolder_ref, Href. apply AssetRef_eq_refl.
    + reflexivity.
    + now apply AssetRef_eq_null.
  - destruct Hparent as [Hp|Hp]; [congruence|].
    split; [|split].
    + rewrite JsonToFolder_ref, Href. apply AssetRef_eq_refl.
    + reflexivity.
    + change (AssetRef_eq
                (mkAssetRef
                   (QUuid_fromString E
                      (QUuid_toString E (uuid (Folder.parent f))))
                   AssetType.Folder)
                (Folder.parent f) = true).
      rewrite QUuid_round_trip. unfold AssetRef_eq. cbn [uuid type].
      rewrite N.eqb_refl, Hp. apply orb_true_r.
Qed.

(** *** Composite *)

Lemma encoded_parts (name : QString) (c : Composite.t) :
  toArray (QJsonObject_value (CompositeToJson E name c []) "parts")
    = map (CompositeToJson_child E c) (Composite.children c).
Proof.
  unfold CompositeToJson.
  destruct (negb (AssetRef_isNull (Composite.parent c))); reflexivity.
Qed.

Lemma encoded_fields (name : QString) (c : Composite.t) :
  QJsonObject_value (CompositeToJson E name c []) "root"
    = QJsonValue_of_int (Composite.root c) /\
  QJsonObject_value (CompositeToJson E name c []) "name" = JString name /\
  QJsonObject_value (CompositeToJson E name c []) "properties"
    = JString (Composite.properties c).
Proof.
  unfold CompositeToJson.
  destruct (negb (AssetRef_isNull (Composite.parent c)));
    repeat split; reflexivity.
Qed.

Lemma encoded_parent (name : QString) (c : Composite.t) :
  QJsonObject_contains (CompositeToJson E name c []) "parent"
    = negb (AssetRef_isNull (Composite.parent c)) /\
  (AssetRef_isNull (Composite.parent c) = false ->
   QJsonObject_value (CompositeToJson E name c []) "parent"
     = JString (QUuid_toString E (uuid (Composite.parent c)))).
Proof.
  unfold CompositeToJson.
  destruct (negb (AssetRef_isNull (Composite.parent c))) eqn:Hn;
    split; try reflexivity.
  intros Hf. rewrite Hf in Hn. discriminate.
Qed.

Lemma encoded_child_name (c : Composite.t) (n : QString) :
  child_entry_name (CompositeToJson_child E c n)
    = QString_replace " " "_" n.
Proof. reflexivity. Qed.

Lemma QString_replace_no_space (s : QString) :
  no_space s -> QString_replace " " "_" s = s.
Proof.
  unfold no_space. induction s as [|ch s IH]; cbn; [reflexivity|].
  intros H. apply orb_false_elim in H as [Hch Hs].
  rewrite Hch. now rewrite IH.
Qed.

Lemma encoded_child_names (c : Composite.t) (l : list QString) :
  Forall no_space l ->
  map child_entry_name (map (CompositeToJson_child E c) l) = l.
Proof.
  induction 1 as [|n l Hn _ IH]; cbn [map]; [reflexivity|].
  rewrite encoded_child_name, IH. now rewrite QString_replace_no_space.
Qed.

(** Decoding the record of a child gives the child back, with the running
    index as its [index]. *)
Lemma encoded_child (c : Composite.t) (n : QString) (ch : Child.t) :
  Composite.childrenMap c !! n = Some ch ->
  Child_wf ch ->
  child_of_entry E (CompositeToJson_child E c n) (Child.index ch) = ch.
Proof.
  intros Hch (Hp & Hpp & Hz & Hchildren & Htype).
  change (child_of_entry E (CompositeToJson_child E c n) (Child.index ch))
    with
    (let child := default (Child_default E) (Composite.childrenMap c !! n) in
     Child.mk
       (toVariant_toInt E (QJsonValue_of_int (Child.parent child)))
       (toVariant_toInt E (QJsonValue_of_int (Child.parentPivot child)))
       (toVariant_toInt E (QJsonValue_of_int (Child.z child)))
       (mkAssetRef
          (QUuid_fromString E (QUuid_toString E (uuid (Child.part child))))
          AssetType.Part)
       (Child.index ch)
       (map (toVariant_toInt E)
            (map QJsonValue_of_int (Child.children child)))).
  rewrite Hch. cbn [default].
  rewrite !int_round_trip, ints_round_trip, QUuid_round_trip by assumption.
  destruct ch as [p pp z0 [u t] i l]. cbn in *. now subst t.
Qed.

Lemma Composite_round_trip (c target : Composite.t) :
  Composite_wf c ->
  Forall no_space (Composite.children c) ->
  fresh_composite target ->
  Composite.ref target = Composite.ref c ->
  Composite_equal
    (JsonToComposite E (CompositeToJson E (Composite.name c) c []) target) c.
Proof.
  intros ((Hinmap & Hkeys & Hnd) & Horder & Hroot & Hparent & Hwf)
         Hnames (Htc & Htm & Htp) Href.
  destruct (encoded_fields (Composite.name c) c) as (Er & En & Ep).
  destruct (encoded_parent (Composite.name c) c) as (Ec & Ev).
  unfold JsonToComposite.
  rewrite encoded_parts, Er, En, Ep, Ec.
  match goal with
  | |- context [fold_left _ ?vs (?comp0, ?i0)] =>
      destruct (JsonToComposite_children_spec E vs comp0 i0)
        as (Hch & _ & (Hn & Hp & Hpa & Hr) & Hout & Hin)
  end.
  rewrite encoded_child_names in Hch, Hout, Hin by exact Hnames.
  cbn [Composite.children Composite.childrenMap Composite.name
       Composite.properties Composite.parent Composite.root] in *.
  split; [|split; [|split; [|split; [|split; [|split]]]]].
  - rewrite JsonToComposite_children_ref. cbn. rewrite Href.
    apply AssetRef_eq_refl.
  - exact Hn.
  - exact Hp.
  - rewrite Hpa.
    destruct (AssetRef_isNull (Composite.parent c)) eqn:Hnull; cbn [negb].
    + now apply AssetRef_eq_null.
    + destruct Hparent as [Hx|Hx]; [congruence|].
      rewrite (Ev eq_refl). cbn [toString]. rewrite QUuid_round_trip.
      unfold AssetRef_eq. cbn [uuid type].
      rewrite N.eqb_refl, Hx. apply orb_true_r.
  - rewrite Hr. now apply int_round_trip.
  - rewrite Hch, Htc. reflexivity.
  - apply map_eq. intros n.
    destruct (in_dec string_dec n (Composite.children c)) as [Hn'|Hn'].
    + destruct (Hin n Hn') as (j & v & Hv & [Hj _] & Hlook).
      rewrite Hlook.
      destruct (Horder j n Hj) as (ch & Hch' & Hidx).
      rewrite Hch'. f_equal.
      rewrite list_lookup_fmap, Hj in Hv. injection Hv as <-.
      rewrite Z.add_0_l, <- Hidx.
      apply encoded_child; [exact Hch'|]. eapply Hwf, Hch'.
    + rewrite (Hout n Hn'), Htm, lookup_empty.
      destruct (Composite.childrenMap c !! n) as [ch|] eqn:Hc;
        [|reflexivity].
      destruct Hn'. apply Hkeys. eauto.
Qed.

End RoundTrip.

(** C5, as the code has it. With [QUuid] read back from its own string
    form, decoding the record of a folder gives the folder back, and
    decoding the record of a composite that meets the invariants gives the
    composite back provided none of its child names contains a space (the
    encoder writes every space of a child name as an underscore);
    references are compared with [operator==]. *)
Theorem record_round_trip (E : Platform) :
  (forall u, QUuid_fromString E (QUuid_toString E u) = u) ->
  (forall f target : Folder.t,
     folder_ref (Folder.parent f) ->
     AssetRef_isNull (Folder.parent target) = true ->
     Folder.ref target = Folder.ref f ->
     Folder_equal
       (JsonToFolder E (FolderToJson E (Folder.name f) f []) target) f) /\
  (forall c target : Composite.t,
     Composite_wf c ->
     Forall no_space (Composite.children c) ->
     fresh_composite target ->
     Composite.ref target = Composite.ref c ->
     Composite_equal
       (JsonToComposite E (CompositeToJson E (Composite.name c) c []) target)
       c).
Proof.
  intros Huuid. split.
  - intros f target. now apply Folder_round_trip.
  - intros c target. now apply Composite_round_trip.
Qed.

Lemma Fixture_composite_wf (first second : QString) :
  first <> second -> Composite_wf (Fixture.composite first second).
Proof.
  intros Hne.
  unfold Composite_wf, Composite_sync, children_in_map, map_keys_in_children,
    indices_in_document_order, Fixture.composite.
  cbn [Composite.children Composite.childrenMap Composite.root
       Composite.parent].
  assert (Hlook : forall n ch,
            (<[second := Fixture.child 1]>
               ({[first := Fixture.child 0]} : gmap QString Child.t)) !! n
              = Some ch ->
            (n = first /\ ch = Fixture.child 0) \/
            (n = second /\ ch = Fixture.child 1)).
  { intros n ch. rewrite lookup_insert. destruct (decide (second = n)).
    - intros [= <-]. auto.
    - rewrite lookup_singleton. destruct (decide (first = n)).
      + intros [= <-]. auto.
      + discriminate. }
  split; [split; [|split]|split; [|split; [|split]]].
  - intros n [<-|[<-|[]]].
    + rewrite lookup_insert_ne by congruence.
      rewrite lookup_singleton_eq. eauto.
    + rewrite lookup_insert_eq. eauto.
  - intros n [ch Hch]. destruct (Hlook n ch Hch) as [[-> _]|[-> _]]; cbn; auto.
  - apply NoDup_cons. split.
    + intros Hin. apply list_elem_of_singleton in Hin. contradiction.
    + apply NoDup_singleton.
  - intros i n Hi. destruct i as [|[|i]]; cbn in Hi; try discriminate;
      injection Hi as <-.
    + exists (Fixture.child 0). split; [|reflexivity].
      rewrite lookup_insert_ne by congruence. apply lookup_singleton_eq.
    + exists (Fixture.child 1). split; [|reflexivity].
      apply lookup_insert_eq.
  - unfold int_range, INT_MIN, INT_MAX. lia.
  - unfold folder_ref. right. reflexivity.
  - intros n ch Hch.
    destruct (Hlook n ch Hch) as [[_ ->]|[_ ->]];
      unfold Child_wf, int_range, INT_MIN, INT_MAX; cbn;
      repeat split; try lia; constructor.
Qed.

Lemma record_round_trip_witness :
  Folder_equal
    (JsonToFolder Fixture.one_folder_platform
       (FolderToJson Fixture.one_folder_platform
          (Folder.name Fixture.sub_folder) Fixture.sub_folder [])
       Fixture.blank_folder)
    Fixture.sub_folder /\
  Composite_equal
    (JsonToComposite Fixture.one_folder_platform
       (CompositeToJson Fixture.one_folder_platform
          (Composite.name (Fixture.composite "a" "c"))
          (Fixture.composite "a" "c") [])
       Fixture.new_composite)
    (Fixture.composite "a" "c").
Proof.
  destruct (record_round_trip Fixture.one_folder_platform HexString.to_N_of_N)
    as [Hfolder Hcomposite].
  split.
  - apply Hfolder; [right|..]; reflexivity.
  - apply Hcomposite.
    + apply Fixture_composite_wf. discriminate.
    + repeat constructor.
    + repeat split; reflexivity.
    + reflexivity.
Defined.

(** C5 fails as stated: a composite that meets the invariants and has a
    child named with a space is encoded and decoded again; the decoded
    composite names that child with an underscore. *)
Lemma Composite_round_trip_loses_spaces :
  Composite_wf (Fixture.composite "a b" "c") /\
  Composite.children
    (JsonToComposite Fixture.one_folder_platform
       (CompositeToJson Fixture.one_folder_platform
          (Composite.name (Fixture.composite "a b" "c"))
          (Fixture.composite "a b" "c") [])
       Fixture.new_composite) = ["a_b"; "c"] /\
  ~ Composite_equal
      (JsonToComposite Fixture.one_folder_platform
         (CompositeToJson Fixture.one_folder_platform
            (Composite.name (Fixture.composite "a b" "c"))
            (Fixture.composite "a b" "c") [])
         Fixture.new_composite)
      (Fixture.composite "a b" "c").
Proof.
  split; [apply Fixture_composite_wf; discriminate|].
  split; [reflexivity|].
  intros (_ & _ & _ & _ & _ & Hch & _).
  vm_compute in Hch. discriminate Hch.
Qed.

(** ** Part records *)

Lemma foldlM_fault {A B : Type} (f : B -> A -> Outcome B) (P : Fault -> Prop)
    (l : list A) :
  (forall b a e, f b a = Aborted e -> P e) ->
  forall b e, foldlM f b l = Aborted e -> P e.
Proof.
  intros Hstep. induction l as [|a l IH]; intros b e; cbn [foldlM].
  - discriminate.
  - destruct (f b a) as [b'|e'] eqn:Hfa; cbn.
    + apply IH.
    + intros [= <-]. eapply Hstep, Hfa.
Qed.

Section PartDecoding.
Variable E : Platform.
Variable imageMap : gmap QString QImage.

Lemma pivots_push_back_fault (pivots : list (list QPoint)) (p : Z)
    (pt : QPoint) (e : Fault) :
  pivots_push_back pivots p pt = Aborted e -> e = ArrayIndexOutOfRange.
Proof.
  unfold pivots_push_back.
  destruct ((0 <=? p) && (p <? Z.of_nat (length pivots)));
    [discriminate|congruence].
Qed.

(** A frame whose image is not in the map stops the run at the access
    through the null pointer. *)
Lemma JsonToPart_frame_missing (m : Mode.t) (frameValue : QJsonValue) :
  imageMap !! frame_image_name frameValue = None ->
  JsonToPart_frame E imageMap m frameValue = Aborted NullPointerAccess.
Proof.
  unfold JsonToPart_frame, frame_image_name. now intros ->.
Qed.

(** The frame loop never raises the frames-count assertion. *)
Lemma JsonToPart_frame_fault (m : Mode.t) (frameValue : QJsonValue)
    (e : Fault) :
  JsonToPart_frame E imageMap m frameValue = Aborted e ->
  e <> AssertionFailure frames_count_text.
Proof.
  unfold JsonToPart_frame.
  destruct (imageMap !! _) as [image|]; [|intros [= <-]; discriminate].
  cbn [Q_ASSERT mbind Outcome_bind].
  destruct ((width image =? Mode.width m) && (height image =? Mode.height m));
    cbn [Q_ASSERT mbind Outcome_bind]; [|intros [= <-]; discriminate].
  match goal with
  | |- context [foldlM ?f ?b ?l ≫= _] =>
      destruct (foldlM f b l) as [pivots|e1] eqn:H1
  end; cbn [mbind Outcome_bind].
  - match goal with
    | |- context [foldlM ?f ?b ?l ≫= _] =>
        destruct (foldlM f b l) as [pivots2|e2] eqn:H2
    end; cbn [mbind Outcome_bind]; [discriminate|].
    intros [= <-].
    apply (foldlM_fault _ (fun e => e = ArrayIndexOutOfRange)) in H2.
    + rewrite H2. discriminate.
    + intros b a e. apply pivots_push_back_fault.
  - intros [= <-].
    apply (foldlM_fault _ (fun e => e = ArrayIndexOutOfRange)) in H1.
    + rewrite H1. discriminate.
    + intros b a e. apply pivots_push_back_fault.
Qed.

Lemma JsonToPart_mode_mismatch (modeObject : QJsonObject) :
  mode_frame_count modeObject <> mode_numFrames modeObject ->
  JsonToPart_mode E imageMap modeObject
    = Aborted (AssertionFailure frames_count_text).
Proof.
  intros H. unfold JsonToPart_mode.
  apply Z.eqb_neq in H.
  unfold mode_frame_count, mode_frames, mode_numFrames in H.
  cbn [Mode.numFrames]. rewrite H. reflexivity.
Qed.

Lemma JsonToPart_mode_match (modeObject : QJsonObject) :
  mode_frame_count modeObject = mode_numFrames modeObject ->
  JsonToPart_mode E imageMap modeObject
    = foldlM (JsonToPart_frame E imageMap) (mode_start E modeObject)
        (mode_frames modeObject).
Proof.
  intros H. unfold JsonToPart_mode.
  apply Z.eqb_eq in H.
  unfold mode_frame_count, mode_frames, mode_numFrames in H.
  cbn [Mode.numFrames]. rewrite H. reflexivity.
Qed.

(** The frames-count assertion fires exactly on a mismatch. *)
Lemma frames_count_assertion_iff (modeObject : QJsonObject) :
  mode_frame_count modeObject <> mode_numFrames modeObject <->
  JsonToPart_mode E imageMap modeObject
    = Aborted (AssertionFailure frames_count_text).
Proof.
  split; [apply JsonToPart_mode_mismatch|].
  intros Hrun Heq. rewrite JsonToPart_mode_match in Hrun by exact Heq.
  pose proof (foldlM_fault _
                (fun e => e <> AssertionFailure frames_count_text)
                _ JsonToPart_frame_fault _ _ Hrun) as Hne.
  now apply Hne.
Qed.

(** What the loop body does with an entry that is a mode. *)
Lemma JsonToPart_entry_mode (part : Part.t) (modeName : QString)
    (modeObject : QJsonObject) :
  modeName <> "properties" -> modeObject <> [] ->
  JsonToPart_entry E imageMap part (modeName, JObject modeObject)
    = m ← JsonToPart_mode E imageMap modeObject;
      Returned
        (Part.mk (Part.ref part) (Part.name part) (Part.parent part)
           (Part.properties part) (<[modeName := m]> (Part.modes part))).
Proof.
  intros Hname Hobj. unfold JsonToPart_entry. cbn [fst snd toObject].
  apply String.eqb_neq in Hname. rewrite Hname.
  destruct modeObject; [contradiction|reflexivity].
Qed.

(** What the loop body does with an entry that is neither the properties
    nor a non-empty object: nothing. *)
Lemma JsonToPart_entry_skip (part : Part.t) (key : QString)
    (v : QJsonValue) :
  key <> "properties" -> toObject v = [] ->
  JsonToPart_entry E imageMap part (key, v) = Returned part.
Proof.
  intros Hname Hobj. unfold JsonToPart_entry. cbn [fst snd].
  apply String.eqb_neq in Hname. rewrite Hname, Hobj. reflexivity.
Qed.

(** A mode whose decoding aborts, aborts the decoding of the part. *)
Lemma JsonToPart_mode_aborts (obj : QJsonObject) (part : Part.t)
    (modeName : QString) (modeObject : QJsonObject) (e : Fault) :
  mode_entry obj modeName modeObject ->
  JsonToPart_mode E imageMap modeObject = Aborted e ->
  exists e', JsonToPart E obj imageMap part = Aborted e'.
Proof.
  intros (Hin & Hname & Hobj) Hmode. unfold JsonToPart.
  apply (foldlM_aborts _ (modeName, JObject modeObject)); [exact Hin|].
  intros b. rewrite JsonToPart_entry_mode by assumption.
  rewrite Hmode. cbn. eauto.
Qed.

End PartDecoding.

(** C7. For a mode record of a part, the frames-count assertion of the
    decoder fires exactly when the length of the frames array differs from
    the numFrames field, and such a mismatch is fatal: the decoding of the
    whole part is aborted, no part is returned. *)
Theorem frames_count_is_fatal
    (E : Platform) (imageMap : gmap QString QImage) (obj : QJsonObject)
    (part : Part.t) (modeName : QString) (modeObject : QJsonObject) :
  mode_entry obj modeName modeObject ->
  (mode_frame_count modeObject <> mode_numFrames modeObject <->
   JsonToPart_mode E imageMap modeObject
     = Aborted (AssertionFailure frames_count_text)) /\
  (mode_frame_count modeObject <> mode_numFrames modeObject ->
   exists e, JsonToPart E obj imageMap part = Aborted e).
Proof.
  intros Hentry. split; [apply frames_count_assertion_iff|].
  intros Hne. eapply JsonToPart_mode_aborts; [exact Hentry|].
  now apply JsonToPart_mode_mismatch.
Qed.

Lemma frames_count_is_fatal_witness :
  (mode_frame_count (Fixture.mode 2 [Fixture.frame "hero_000.png" 3 4])
     <> mode_numFrames (Fixture.mode 2 [Fixture.frame "hero_000.png" 3 4]) <->
   JsonToPart_mode Fixture.one_folder_platform Fixture.images
     (Fixture.mode 2 [Fixture.frame "hero_000.png" 3 4])
     = Aborted (AssertionFailure frames_count_text)) /\
  (mode_frame_count (Fixture.mode 2 [Fixture.frame "hero_000.png" 3 4])
     <> mode_numFrames (Fixture.mode 2 [Fixture.frame "hero_000.png" 3 4]) ->
   exists e,
     JsonToPart Fixture.one_folder_platform
       (Fixture.part_record
          (Fixture.mode 2 [Fixture.frame "hero_000.png" 3 4]))
       Fixture.images Fixture.new_part = Aborted e).
Proof.
  apply (frames_count_is_fatal Fixture.one_folder_platform Fixture.images
           (Fixture.part_record
              (Fixture.mode 2 [Fixture.frame "hero_000.png" 3 4]))
           Fixture.new_part "Idle").
  split; [|split].
  - left. reflexivity.
  - discriminate.
  - discriminate.
Defined.

(** C6, as the code has it. [JsonToPart] has no error result. When the
    image name of a frame entry of a mode does not resolve in the image
    map, the decoding of the part does not complete: the run is aborted and
    no part, hence no frame without an image, is returned. *)
Theorem missing_image_aborts
    (E : Platform) (imageMap : gmap QString QImage) (obj : QJsonObject)
    (part : Part.t) (modeName : QString) (modeObject : QJsonObject)
    (frameValue : QJsonValue) :
  mode_entry obj modeName modeObject ->
  In frameValue (mode_frames modeObject) ->
  imageMap !! frame_image_name frameValue = None ->
  exists e, JsonToPart E obj imageMap part = Aborted e.
Proof.
  intros Hentry Hframe Himage.
  destruct (Z.eq_dec (mode_frame_count modeObject) (mode_numFrames modeObject))
    as [Heq|Hne].
  - destruct (foldlM_aborts (JsonToPart_frame E imageMap) frameValue
                (mode_frames modeObject) Hframe
                (fun m => ex_intro _ NullPointerAccess
                            (JsonToPart_frame_missing E imageMap m frameValue
                               Himage))
                (mode_start E modeObject)) as [e He].
    eapply JsonToPart_mode_aborts; [exact Hentry|].
    rewrite JsonToPart_mode_match by exact Heq. exact He.
  - eapply JsonToPart_mode_aborts; [exact Hentry|].
    now apply JsonToPart_mode_mismatch.
Qed.

Lemma missing_image_aborts_witness :
  exists e,
    JsonToPart Fixture.one_folder_platform
      (Fixture.part_record (Fixture.mode 1 [Fixture.frame "missing.png" 3 4]))
      Fixture.images Fixture.new_part = Aborted e.
Proof.
  apply (missing_image_aborts Fixture.one_folder_platform Fixture.images
           (Fixture.part_record
              (Fixture.mode 1 [Fixture.frame "missing.png" 3 4]))
           Fixture.new_part "Idle"
           (Fixture.mode 1 [Fixture.frame "missing.png" 3 4])
           (Fixture.frame "missing.png" 3 4)).
  - split; [|split].
    + left. reflexivity.
    + discriminate.
    + discriminate.
  - left. reflexivity.
  - reflexivity.
Defined.

(** C6 fails as stated: the only frame of the mode names an image that is
    not in the map; the decoder reads the height through the null image
    pointer before any check, and the run ends there rather than with an
    error that names the entry. *)
Lemma missing_image_is_a_null_access :
  Fixture.images !! "missing.png" = None /\
  JsonToPart Fixture.one_folder_platform
    (Fixture.part_record (Fixture.mode 1 [Fixture.frame "missing.png" 3 4]))
    Fixture.images Fixture.new_part = Aborted NullPointerAccess.
Proof. split; reflexivity. Qed.

(** ** Pivot padding *)

Section PivotPadding.
Variable E : Platform.
Variable imageMap : gmap QString QImage.
Hypothesis four_pivots : MAX_PIVOTS E = 4%nat.

(** One turn of the frame loop for a mode with one pivot. *)
Lemma JsonToPart_frame_one_pivot (m : Mode.t) (frameValue : QJsonValue)
    (p0 p1 p2 p3 : list QPoint) :
  Mode.numPivots m = 1 ->
  Mode.pivots m = [p0; p1; p2; p3] ->
  JsonToPart_frame E imageMap m frameValue =
  match imageMap !! frame_image_name frameValue with
  | None => Aborted NullPointerAccess
  | Some image =>
      if (width image =? Mode.width m) && (height image =? Mode.height m)
      then
        Returned
          (Mode.mk (Mode.width m) (Mode.height m) (Mode.numFrames m) 1
             (Mode.framesPerSecond m)
             (Mode.frames m ++ [image])
             (Mode.anchor m ++ [frame_anchor E frameValue])
             [ p0 ++ [frame_pivot E 0 frameValue];
               p1 ++ [mkQPoint 0 0];
               p2 ++ [mkQPoint 0 0];
               p3 ++ [mkQPoint 0 0] ])
      else
        Aborted
          (AssertionFailure
             "imageWidth == m.width && imageHeight == m.height")
  end.
Proof.
  intros Hnp Hpiv. unfold JsonToPart_frame, frame_image_name.
  rewrite Hnp, Hpiv, four_pivots.
  destruct (imageMap !! _) as [image|]; [|reflexivity].
  cbn [Q_ASSERT mbind Outcome_bind].
  destruct ((width image =? Mode.width m) && (height image =? Mode.height m));
    reflexivity.
Qed.

Lemma frames_loop_one_pivot (frames : QJsonArray) :
  forall (m r : Mode.t) (p0 p1 p2 p3 : list QPoint),
    Mode.numPivots m = 1 ->
    Mode.pivots m = [p0; p1; p2; p3] ->
    foldlM (JsonToPart_frame E imageMap) m frames = Returned r ->
    Mode.pivots r =
      [ p0 ++ map (frame_pivot E 0) frames;
        p1 ++ zero_pivots frames;
        p2 ++ zero_pivots frames;
        p3 ++ zero_pivots frames ] /\
    Mode.numFrames r = Mode.numFrames m.
Proof.
  induction frames as [|fv frames IH]; intros m r p0 p1 p2 p3 Hnp Hpiv Hrun.
  - cbn in Hrun. injection Hrun as <-. cbn. now rewrite !app_nil_r.
  - apply foldlM_cons_Returned in Hrun as (m1 & Hstep & Hrun).
    rewrite (JsonToPart_frame_one_pivot m fv p0 p1 p2 p3 Hnp Hpiv) in Hstep.
    destruct (imageMap !! _) as [image|]; [|discriminate].
    destruct ((width image =? Mode.width m) && (height image =? Mode.height m));
      [|discriminate].
    injection Hstep as <-.
    eapply IH in Hrun; [|reflexivity|reflexivity].
    destruct Hrun as [-> ->]. cbn [Mode.numFrames map zero_pivots].
    now rewrite <- !app_assoc.
Qed.

Lemma frames_loop_returns (frames : QJsonArray) :
  forall (m : Mode.t) (p0 p1 p2 p3 : list QPoint),
    Mode.numPivots m = 1 ->
    Mode.pivots m = [p0; p1; p2; p3] ->
    (forall fv, In fv frames ->
       exists image,
         imageMap !! frame_image_name fv = Some image /\
         width image = Mode.width m /\ height image = Mode.height m) ->
    exists r, foldlM (JsonToPart_frame E imageMap) m frames = Returned r.
Proof.
  induction frames as [|fv frames IH]; intros m p0 p1 p2 p3 Hnp Hpiv Himg.
  - cbn. eauto.
  - cbn [foldlM].
    rewrite (JsonToPart_frame_one_pivot m fv p0 p1 p2 p3 Hnp Hpiv).
    destruct (Himg fv) as (image & -> & Hw & Hh); [now left|].
    rewrite Hw, Hh, !Z.eqb_refl. cbn [andb mbind Outcome_bind].
    eapply IH; [reflexivity|reflexivity|].
    intros fv' Hin. cbn [Mode.width Mode.height]. apply Himg. now right.
Qed.

Lemma JsonToPart_mode_one_pivot (modeObject : QJsonObject) (m : Mode.t) :
  toInt (QJsonObject_value modeObject "numPivots") = 1 ->
  JsonToPart_mode E imageMap modeObject = Returned m ->
  Mode.pivots m =
    [ map (frame_pivot E 0) (mode_frames modeObject);
      zero_pivots (mode_frames modeObject);
      zero_pivots (mode_frames modeObject);
      zero_pivots (mode_frames modeObject) ] /\
  Forall (fun s => Z.of_nat (length s) = Mode.numFrames m) (Mode.pivots m).
Proof.
  intros Hnp Hrun.
  destruct (Z.eq_dec (mode_frame_count modeObject)
              (mode_numFrames modeObject)) as [Heq|Hne].
  2:{ rewrite JsonToPart_mode_mismatch in Hrun by exact Hne. discriminate. }
  rewrite JsonToPart_mode_match in Hrun by exact Heq.
  apply (frames_loop_one_pivot _ _ _ [] [] [] []) in Hrun.
  - destruct Hrun as [Hpiv Hnf]. cbn [app] in Hpiv. split; [exact Hpiv|].
    rewrite Hpiv, Hnf. cbn [mode_start Mode.numFrames].
    unfold mode_frame_count, mode_numFrames in Heq. rewrite <- Heq.
    unfold zero_pivots. repeat constructor; now rewrite length_map.
  - exact Hnp.
  - cbn [mode_start Mode.pivots]. now rewrite four_pivots.
Qed.

Lemma JsonToPart_mode_returns (modeObject : QJsonObject) :
  toInt (QJsonObject_value modeObject "numPivots") = 1 ->
  mode_frame_count modeObject = mode_numFrames modeObject ->
  frames_resolve imageMap modeObject ->
  exists m, JsonToPart_mode E imageMap modeObject = Returned m.
Proof.
  intros Hnp Heq Himg. rewrite JsonToPart_mode_match by exact Heq.
  apply (frames_loop_returns _ _ [] [] [] []).
  - exact Hnp.
  - cbn [mode_start Mode.pivots]. now rewrite four_pivots.
  - exact Himg.
Qed.

End PivotPadding.

(** C8. With [MAX_PIVOTS] = 4, decoding a mode record with numPivots = 1
    yields a mode with exactly 4 pivot sequences, each as long as numFrames:
    sequence 0 holds, frame by frame, the point (p0x, p0y) read from the
    record, and sequences 1 to 3 hold (0,0) for every frame. The decoding
    does yield a mode when the frames array is as long as numFrames and
    every frame names an image of the declared dimensions. *)
Theorem pivot_padding
    (E : Platform) (imageMap : gmap QString QImage)
    (modeObject : QJsonObject) :
  MAX_PIVOTS E = 4%nat ->
  toInt (QJsonObject_value modeObject "numPivots") = 1 ->
  (forall m,
     JsonToPart_mode E imageMap modeObject = Returned m ->
     Mode.pivots m =
       [ map (frame_pivot E 0) (mode_frames modeObject);
         zero_pivots (mode_frames modeObject);
         zero_pivots (mode_frames modeObject);
         zero_pivots (mode_frames modeObject) ] /\
     Forall (fun s => Z.of_nat (length s) = Mode.numFrames m)
            (Mode.pivots m)) /\
  (mode_frame_count modeObject = mode_numFrames modeObject ->
   frames_resolve imageMap modeObject ->
   exists m, JsonToPart_mode E imageMap modeObject = Returned m).
Proof.
  intros Hmax Hnp. split.
  - intros m. now apply JsonToPart_mode_one_pivot.
  - now apply JsonToPart_mode_returns.
Qed.

Lemma pivot_padding_witness :
  (Mode.pivots Fixture.idle_mode =
     [ [mkQPoint 3 4]; [mkQPoint 0 0]; [mkQPoint 0 0]; [mkQPoint 0 0] ] /\
   Forall (fun s => Z.of_nat (length s) = Mode.numFrames Fixture.idle_mode)
          (Mode.pivots Fixture.idle_mode)) /\
  exists m,
    JsonToPart_mode Fixture.one_folder_platform Fixture.images
      (Fixture.mode 1 [Fixture.frame "hero_000.png" 3 4]) = Returned m.
Proof.
  destruct (pivot_padding Fixture.one_folder_platform Fixture.images
              (Fixture.mode 1 [Fixture.frame "hero_000.png" 3 4])
              eq_refl eq_refl) as [Hshape Hreturns].
  split.
  - apply (Hshape Fixture.idle_mode). reflexivity.
  - apply Hreturns; [reflexivity|].
    intros fv [<-|[]]. exists Fixture.image2. repeat split; reflexivity.
Defined.

(** ** Which entries of a part record are modes *)

Section ModeKeys.
Variable E : Platform.
Variable imageMap : gmap QString QImage.

Lemma JsonToPart_entry_inv (part part' : Part.t) (key : QString)
    (v : QJsonValue) :
  JsonToPart_entry E imageMap part (key, v) = Returned part' ->
  (key = "properties" /\ Part.modes part' = Part.modes part) \/
  (key <> "properties" /\ toObject v = [] /\ part' = part) \/
  (key <> "properties" /\ toObject v <> [] /\
   exists m, JsonToPart_mode E imageMap (toObject v) = Returned m /\
             Part.modes part' = <[key := m]> (Part.modes part)).
Proof.
  unfold JsonToPart_entry. cbn [fst snd].
  destruct (String.eqb_spec key "properties") as [Hk|Hk].
  - intros [= <-]. left. auto.
  - destruct (toObject v) as [|it o] eqn:Ho; cbn [QJsonObject_isEmpty negb].
    + intros [= <-]. right. left. auto.
    + intros H. apply bind_Returned_inv in H as (m & Hm & [= <-]).
      right. right. repeat split; [exact Hk|discriminate|].
      exists m. auto.
Qed.

(** The keys of the mode map after the loop over the entries. *)
Lemma JsonToPart_entries_keys (obj : QJsonObject) :
  forall (part part' : Part.t),
    foldlM (JsonToPart_entry E imageMap) part obj = Returned part' ->
    forall k : QString,
      is_Some (Part.modes part' !! k) <->
      is_Some (Part.modes part !! k) \/
      (k <> "properties" /\
       exists v, In (k, v) obj /\ toObject v <> []).
Proof.
  induction obj as [|[key v] obj IH]; intros part part' Hrun k.
  - cbn in Hrun. injection Hrun as <-. split; [auto|].
    intros [H|(_ & v & [] & _)]. exact H.
  - apply foldlM_cons_Returned in Hrun as (part1 & Hstep & Hrun).
    rewrite (IH _ _ Hrun k). clear IH Hrun.
    apply JsonToPart_entry_inv in Hstep
      as [(Hk & Hm)|[(Hk & Ho & ->)|(Hk & Ho & m & _ & Hm)]].
    + rewrite Hm. split.
      * intros [H|(Hne & w & Hin & Hw)]; [auto|].
        right. split; [exact Hne|]. exists w. split; [now right|exact Hw].
      * intros [H|(Hne & w & [Heq|Hin] & Hw)]; [auto| |].
        -- injection Heq as <- <-. contradiction.
        -- right. split; [exact Hne|]. exists w. auto.
    + split.
      * intros [H|(Hne & w & Hin & Hw)]; [auto|].
        right. split; [exact Hne|]. exists w. split; [now right|exact Hw].
      * intros [H|(Hne & w & [Heq|Hin] & Hw)]; [auto| |].
        -- injection Heq as <- <-. contradiction.
        -- right. split; [exact Hne|]. exists w. auto.
    + rewrite Hm. split.
      * intros [H|(Hne & w & Hin & Hw)].
        -- rewrite lookup_insert in H. destruct (decide (key = k)) as [<-|].
           ++ right. split; [exact Hk|]. exists v. split; [now left|exact Ho].
           ++ now left.
        -- right. split; [exact Hne|]. exists w. split; [now right|exact Hw].
      * intros [H|(Hne & w & [Heq|Hin] & Hw)].
        -- left. rewrite lookup_insert. destruct (decide (key = k)); eauto.
        -- injection Heq as <- <-. left. rewrite lookup_insert_eq. eauto.
        -- right. split; [exact Hne|]. exists w. auto.
Qed.

Lemma toObject_nonempty (v : QJsonValue) :
  toObject v <> [] <-> exists o, v = JObject o /\ o <> [].
Proof.
  split.
  - destruct v; cbn; try congruence. eauto.
  - intros (o & -> & Ho). exact Ho.
Qed.

End ModeKeys.

(** C10. When [JsonToPart] returns, a key of the record is a mode of the
    part exactly when it is not the key properties and its value is a
    non-empty JSON object (modes that the part held before the call stay).
    No other key is excluded by name: an entry whose value is not a
    non-empty object, such as the strings under name and parent or a mode
    whose record is an empty object, is passed over without any error,
    and every other entry but properties is decoded as a mode and stored
    under its key. *)
Theorem mode_keys_are_nonempty_objects
    (E : Platform) (imageMap : gmap QString QImage) (obj : QJsonObject)
    (part part' : Part.t) :
  JsonToPart E obj imageMap part = Returned part' ->
  (forall k : QString,
     is_Some (Part.modes part' !! k) <->
     is_Some (Part.modes part !! k) \/
     (k <> "properties" /\
      exists o, In (k, JObject o) obj /\ o <> [])) /\
  (forall (p : Part.t) (k : QString) (v : QJsonValue),
     k <> "properties" ->
     ~ (exists o, v = JObject o /\ o <> []) ->
     JsonToPart_entry E imageMap p (k, v) = Returned p) /\
  (forall (p : Part.t) (k : QString) (o : QJsonObject),
     k <> "properties" -> o <> [] ->
     JsonToPart_entry E imageMap p (k, JObject o)
       = m ← JsonToPart_mode E imageMap o;
         Returned
           (Part.mk (Part.ref p) (Part.name p) (Part.parent p)
              (Part.properties p) (<[k := m]> (Part.modes p)))).
Proof.
  intros Hrun. split; [|split; [|apply JsonToPart_entry_mode]].
  - intros k. unfold JsonToPart in Hrun.
    rewrite (JsonToPart_entries_keys E imageMap obj _ _ Hrun k).
    assert (Hmodes : forall a b c d e f,
              Part.modes (if (c : bool) then Part.mk a b d e (Part.modes part)
                          else Part.mk a b f e (Part.modes part))
                = Part.modes part) by (intros; now destruct c).
    rewrite Hmodes. clear Hmodes. split.
    + intros [H|(Hne & v & Hin & Hv)]; [auto|].
      apply toObject_nonempty in Hv as (o & -> & Ho). eauto 6.
    + intros [H|(Hne & o & Hin & Ho)]; [auto|].
      right. split; [exact Hne|]. exists (JObject o). auto.
  - intros p k v Hk Hv. apply JsonToPart_entry_skip; [exact Hk|].
    destruct (toObject v) as [|it o] eqn:Ho; [reflexivity|].
    destruct Hv. apply toObject_nonempty. rewrite Ho. discriminate.
Qed.

Lemma mode_keys_are_nonempty_objects_witness :
  (forall k : QString,
     is_Some (Part.modes Fixture.hero_part !! k) <->
     is_Some (Part.modes Fixture.new_part !! k) \/
     (k <> "properties" /\
      exists o, In (k, JObject o) Fixture.hero_record /\ o <> [])) /\
  (forall (p : Part.t) (k : QString) (v : QJsonValue),
     k <> "properties" ->
     ~ (exists o, v = JObject o /\ o <> []) ->
     JsonToPart_entry Fixture.one_folder_platform Fixture.images p (k, v)
       = Returned p) /\
  (forall (p : Part.t) (k : QString) (o : QJsonObject),
     k <> "properties" -> o <> [] ->
     JsonToPart_entry Fixture.one_folder_platform Fixture.images p
       (k, JObject o)
       = m ← JsonToPart_mode Fixture.one_folder_platform Fixture.images o;
         Returned
           (Part.mk (Part.ref p) (Part.name p) (Part.parent p)
              (Part.properties p) (<[k := m]> (Part.modes p)))).
Proof.
  apply (mode_keys_are_nonempty_objects Fixture.one_folder_platform
           Fixture.images Fixture.hero_record Fixture.new_part
           Fixture.hero_part).
  vm_compute. reflexivity.
Defined.

(** * Further properties of the code *)

(** ** References: equality, order and hash *)

Lemma AssetType_eqb_eq (a b : AssetType.t) :
  AssetType.eqb a b = true <-> a = b.
Proof. destruct a, b; cbn; split; congruence. Qed.

Lemma AssetRef_eq_spec (a b : AssetRef) :
  AssetRef_eq a b = true <->
  (uuid a = 0%N /\ uuid b = 0%N) \/ (uuid a = uuid b /\ type a = type b).
Proof.
  unfold AssetRef_eq, QUuid_isNull.
  rewrite orb_true_iff, !andb_true_iff, !N.eqb_eq, AssetType_eqb_eq.
  reflexivity.
Qed.

(** X1. [operator==] on references is an equivalence relation. *)
Theorem AssetRef_eq_equivalence :
  (forall a, AssetRef_eq a a = true) /\
  (forall a b, AssetRef_eq a b = AssetRef_eq b a) /\
  (forall a b c,
     AssetRef_eq a b = true -> AssetRef_eq b c = true ->
     AssetRef_eq a c = true).
Proof.
  split; [exact AssetRef_eq_refl|]. split.
  - intros a b. apply eq_true_iff_eq.
    rewrite !AssetRef_eq_spec. intuition congruence.
  - intros a b c. rewrite !AssetRef_eq_spec.
    intros [[Ha Hb]|[Hu Ht]] [[Hb' Hc]|[Hu' Ht']]; try (left; split; congruence).
    right. split; congruence.
Qed.

(** X2. Two null references are equal whatever their kinds, a null
    reference is never equal to a non-null one, two non-null references
    are equal exactly when uuid and kind agree, and [operator!=] is the
    complement of [operator==]. *)
Theorem AssetRef_null_identity (a b : AssetRef) :
  (AssetRef_isNull a = true -> AssetRef_isNull b = true ->
   AssetRef_eq a b = true) /\
  (AssetRef_isNull a = true -> AssetRef_isNull b = false ->
   AssetRef_eq a b = false /\ AssetRef_eq b a = false) /\
  (AssetRef_isNull a = false -> AssetRef_isNull b = false ->
   (AssetRef_eq a b = true <-> a = b)) /\
  (AssetRef_neq a b = true <-> AssetRef_eq a b = false).
Proof.
  unfold AssetRef_isNull, QUuid_isNull. split; [|split; [|split]].
  - intros Ha Hb. apply AssetRef_eq_spec. left.
    now rewrite <- !N.eqb_eq.
  - intros Ha Hb. apply N.eqb_eq in Ha. apply N.eqb_neq in Hb.
    split; apply not_true_is_false; rewrite AssetRef_eq_spec;
      intros [[? ?]|[? ?]]; congruence.
  - intros Ha Hb. apply N.eqb_neq in Ha. rewrite AssetRef_eq_spec. split.
    + intros [[? ?]|[Hu Ht]]; [contradiction|].
      destruct a, b. cbn in *. congruence.
    + intros ->. now right.
  - unfold AssetRef_neq. apply negb_true_iff.
Qed.

(** X3. References that are equal under [operator==] have the same hash. *)
Theorem qHash_respects_equality (h : QUuid -> Z) (a b : AssetRef) :
  AssetRef_eq a b = true -> qHash h a = qHash h b.
Proof.
  rewrite AssetRef_eq_spec. unfold qHash.
  intros [[-> ->]|[-> _]]; reflexivity.
Qed.

Lemma qHash_respects_equality_witness :
  qHash (fun u => Z.of_N u) (mkAssetRef 0%N AssetType.Part)
    = qHash (fun u => Z.of_N u) (mkAssetRef 0%N AssetType.Folder).
Proof.
  apply (qHash_respects_equality (fun u => Z.of_N u)
           (mkAssetRef 0%N AssetType.Part) (mkAssetRef 0%N AssetType.Folder)).
  reflexivity.
Defined.

(** X4. [operator<] is a strict order that looks at the uuid only: it is
    irreflexive and transitive, two references are unordered exactly when
    their uuids agree, and references equal under [operator==] are never
    ordered. A map keyed by references therefore has one slot per uuid,
    also for references of different kinds. *)
Theorem AssetRef_lt_strict_order :
  (forall a, AssetRef_lt a a = false) /\
  (forall a b c,
     AssetRef_lt a b = true -> AssetRef_lt b c = true ->
     AssetRef_lt a c = true) /\
  (forall a b,
     (AssetRef_lt a b = false /\ AssetRef_lt b a = false) <->
     uuid a = uuid b) /\
  (forall a b,
     AssetRef_eq a b = true ->
     AssetRef_lt a b = false /\ AssetRef_lt b a = false).
Proof.
  unfold AssetRef_lt. split; [|split; [|split]].
  - intros a. apply N.ltb_irrefl.
  - intros a b c. rewrite !N.ltb_lt. lia.
  - intros a b. rewrite !N.ltb_ge. lia.
  - intros a b. rewrite AssetRef_eq_spec, !N.ltb_ge.
    intros [[-> ->]|[-> _]]; lia.
Qed.

(** ** The text of a record *)

Lemma first_nul_none (buffer : QByteArray) (i : nat) :
  Forall (fun b => b <> Byte.x00) buffer -> first_nul buffer i = 0%nat.
Proof.
  intros H. revert i. induction H as [|b buffer Hb _ IH]; intros i; cbn.
  - reflexivity.
  - destruct (Byte.eqb b Byte.x00) eqn:Hx; [|apply IH].
    apply Byte.byte_dec_bl in Hx. contradiction.
Qed.



(** X6. A data record that holds no NUL byte makes [load] fail with the
    reason that the record is empty, even when the record has content; the
    registry and the settings are left as they are. *)
Theorem load_rejects_unterminated_data
    (E : Platform) (fs : FileSystem) (fileName reason : QString)
    (pm : ProjectModel.t) (settings : QSettings) (dataRec : QByteArray) :
  data_record E fs fileName dataRec ->
  Forall (fun b => b <> Byte.x00) dataRec ->
  load E fs fileName reason pm settings
    = Returned (false, "Internal data.json is empty", pm, settings).
Proof.
  intros Hrec Hall. apply load_fails_at_step.
  apply fails_data_empty with (dataRec := dataRec); [exact Hrec|].
  now apply first_nul_none.
Qed.

Lemma load_rejects_unterminated_data_witness :
  load (Fixture.platform (Some {[ "data.json" := [Byte.x7b; Byte.x7d] ]})
          (NoError, Fixture.one_folder_document))
       Fixture.files "project.mqs" "" Fixture.old_registry ∅
    = Returned (false, "Internal data.json is empty", Fixture.old_registry, ∅).
Proof.
  apply (load_rejects_unterminated_data _ _ _ _ _ _ [Byte.x7b; Byte.x7d]).
  - exists [Byte.x31], {[ "data.json" := [Byte.x7b; Byte.x7d] ]}.
    repeat split; reflexivity.
  - repeat constructor; discriminate.
Defined.

(** ** The image records of an archive *)

Section ImageLoop.
Variable E : Platform.
Variable f : gmap QString QImage -> string * QByteArray ->
             Outcome (gmap QString QImage).
Hypothesis f_spec :
  forall acc it,
    f acc it =
    if QString_endsWith (fst it) ".png" then
      match QImage_loadFromData E (snd it) with
      | Some img => Returned (<[fst it := img]> acc)
      | None => Aborted (AssertionFailure "res")
      end
    else Returned acc.

Lemma images_loop_returned (l : list (string * QByteArray)) :
  forall acc im : gmap QString QImage,
    NoDup (map fst l) ->
    foldlM f acc l = Returned im ->
    (forall name rec,
       In (name, rec) l -> QString_endsWith name ".png" = true ->
       im !! name = QImage_loadFromData E rec /\
       is_Some (QImage_loadFromData E rec)) /\
    (forall name,
       (forall rec, In (name, rec) l ->
                    QString_endsWith name ".png" = false) ->
       im !! name = acc !! name).
Proof.
  induction l as [|[n0 r0] l IH]; intros acc im Hnd Hrun.
  - cbn in Hrun. injection Hrun as <-. split; [intros ? ? []|reflexivity].
  - apply NoDup_cons in Hnd as [Hn0 Hnd].
    apply foldlM_cons_Returned in Hrun as (acc1 & Hstep & Hrun).
    rewrite f_spec in Hstep. cbn [fst snd] in Hstep.
    destruct (IH _ _ Hnd Hrun) as [Hpng Hother]. clear IH.
    assert (Hfresh : forall rec, In (n0, rec) l -> False).
    { intros rec Hin. apply Hn0. apply list_elem_of_In.
      apply (in_map fst) in Hin. exact Hin. }
    split.
    + intros name rec [[= <- <-]|Hin] Hname; [|now apply Hpng].
      rewrite Hname in Hstep.
      destruct (QImage_loadFromData E r0) as [img|]; [|discriminate].
      injection Hstep as <-. split; [|eauto].
      rewrite Hother by (intros rec Hin; destruct (Hfresh rec Hin)).
      apply lookup_insert_eq.
    + intros name Hname. rewrite Hother.
      2:{ intros rec Hin. apply (Hname rec). now right. }
      destruct (QString_endsWith n0 ".png") eqn:Hn.
      * destruct (QImage_loadFromData E r0) as [img|]; [|discriminate].
        injection Hstep as <-. apply lookup_insert_ne. intros ->.
        rewrite (Hname r0) in Hn by now left. discriminate.
      * now injection Hstep as <-.
Qed.

Lemma images_loop_aborted (l : list (string * QByteArray)) :
  forall (acc : gmap QString QImage) (e : Fault),
    foldlM f acc l = Aborted e ->
    e = AssertionFailure "res" /\
    exists name rec,
      In (name, rec) l /\ QString_endsWith name ".png" = true /\
      QImage_loadFromData E rec = None.
Proof.
  induction l as [|[n0 r0] l IH]; intros acc e Hrun; [discriminate|].
  cbn [foldlM] in Hrun. rewrite f_spec in Hrun. cbn [fst snd] in Hrun.
  destruct (QString_endsWith n0 ".png") eqn:Hn.
  - destruct (QImage_loadFromData E r0) as [img|] eqn:Hload.
    + destruct (IH _ _ Hrun) as (He & name & rec & Hin & H1 & H2).
      split; [exact He|]. exists name, rec. auto using in_cons.
    + injection Hrun as <-. split; [reflexivity|].
      exists n0, r0. repeat split; [now left|exact Hn|exact Hload].
  - destruct (IH _ _ Hrun) as (He & name & rec & Hin & H1 & H2).
    split; [exact He|]. exists name, rec. auto using in_cons.
Qed.

Lemma images_loop_aborts (l : list (string * QByteArray))
    (name : QString) (rec : QByteArray) :
  In (name, rec) l -> QString_endsWith name ".png" = true ->
  QImage_loadFromData E rec = None ->
  forall acc, exists e, foldlM f acc l = Aborted e.
Proof.
  intros Hin Hname Hload. apply (foldlM_aborts f (name, rec) l Hin).
  intros b. rewrite f_spec. cbn [fst snd]. rewrite Hname, Hload. eauto.
Qed.

End ImageLoop.

Lemma load_images_step (E : Platform) (acc : gmap QString QImage)
    (it : string * QByteArray) :
  (let assetName := fst it in
   if QString_endsWith assetName ".png" then
     let loaded := QImage_loadFromData E (snd it) in
     let res := bool_decide (is_Some loaded) in
     let img := default QImage_null loaded in
     _ ← Q_ASSERT res "res";
     Returned (<[assetName := img]> acc)
   else Returned acc) =
  if QString_endsWith (fst it) ".png" then
    match QImage_loadFromData E (snd it) with
    | Some img => Returned (<[fst it := img]> acc)
    | None => Aborted (AssertionFailure "res")
    end
  else Returned acc.
Proof.
  cbn zeta. destruct (QString_endsWith (fst it) ".png"); [|reflexivity].
  destruct (QImage_loadFromData E (snd it)) as [img|]; reflexivity.
Qed.

Lemma map_to_list_In {V : Type} (m : gmap string V) (k : string) (v : V) :
  In (k, v) (map_to_list m) <-> m !! k = Some v.
Proof. rewrite <- list_elem_of_In. apply elem_of_map_to_list. Qed.

Lemma load_images_returned (E : Platform) (fileMap : gmap string QByteArray)
    (im : gmap QString QImage) (name : QString) :
  load_images E fileMap = Returned im ->
  im !! name =
  if QString_endsWith name ".png"
  then fileMap !! name ≫= QImage_loadFromData E
  else None.
Proof.
  unfold load_images. intros Hrun.
  apply (images_loop_returned E _ (load_images_step E)) in Hrun
    as [Hpng Hother]; [|apply NoDup_fst_map_to_list].
  destruct (QString_endsWith name ".png") eqn:Hname.
  - destruct (fileMap !! name) as [rec|] eqn:Hrec; cbn.
    + apply map_to_list_In in Hrec. now apply Hpng.
    + rewrite Hother; [apply lookup_empty|].
      intros rec Hin. apply map_to_list_In in Hin.
      pose proof (eq_trans (eq_sym Hin) Hrec) as Hx. discriminate Hx.
  - rewrite Hother; [apply lookup_empty|]. auto.
Qed.

Lemma load_images_aborted (E : Platform) (fileMap : gmap string QByteArray)
    (e : Fault) :
  load_images E fileMap = Aborted e ->
  e = AssertionFailure "res" /\
  exists name rec,
    image_record fileMap name rec /\ QImage_loadFromData E rec = None.
Proof.
  unfold load_images, image_record. intros Hrun.
  apply (images_loop_aborted E _ (load_images_step E)) in Hrun
    as (He & name & rec & Hin & Hname & Hload).
  split; [exact He|]. exists name, rec.
  apply map_to_list_In in Hin. auto.
Qed.

Lemma load_images_aborts (E : Platform) (fileMap : gmap string QByteArray)
    (name : QString) (rec : QByteArray) :
  image_record fileMap name rec -> QImage_loadFromData E rec = None ->
  exists e, load_images E fileMap = Aborted e.
Proof.
  unfold load_images, image_record. intros [Hrec Hname] Hload.
  apply (images_loop_aborts E _ (load_images_step E) _ name rec);
    [now apply map_to_list_In|exact Hname|exact Hload].
Qed.

(** X7. The image map that [load] builds: when the loop over the archive
    returns, the map holds under every name ending in .png the image
    decoded from the record of that name, and nothing under any other
    name. The loop is aborted, at the assertion on the decoding result,
    exactly when the archive has a .png record that does not decode. *)
Theorem load_images_spec (E : Platform) (fileMap : gmap string QByteArray) :
  (forall im,
     load_images E fileMap = Returned im ->
     forall name,
       im !! name =
       if QString_endsWith name ".png"
       then fileMap !! name ≫= QImage_loadFromData E
       else None) /\
  (forall e,
     load_images E fileMap = Aborted e ->
     e = AssertionFailure "res" /\
     exists name rec,
       image_record fileMap name rec /\ QImage_loadFromData E rec = None) /\
  (forall name rec,
     image_record fileMap name rec -> QImage_loadFromData E rec = None ->
     exists e, load_images E fileMap = Aborted e).
Proof.
  split; [|split].
  - intros im Hrun name. now apply load_images_returned.
  - intros e. apply load_images_aborted.
  - intros name rec. apply load_images_aborts.
Qed.

(** ** load past the version gate *)

Lemma load_past_gate (E : Platform) (fs : FileSystem)
    (fileName reason : QString) (pm : ProjectModel.t) (settings : QSettings)
    (fileMap : gmap string QByteArray) (dataObj : QJsonObject) :
  passes_gate E fs fileName fileMap dataObj ->
  load E fs fileName reason pm settings =
  imageMap ← load_images E fileMap;
  pm' ← load_data E dataObj imageMap fileName pm;
  Returned (true, reason, pm', load_prefs E fileMap settings).
Proof.
  intros (content & dataRec & Hopen & Htar & Hdata & Hlen & Hparse
          & Hcontains & Hversion).
  unfold load. rewrite Hopen, Htar, Hdata.
  apply Nat.eqb_neq in Hlen. rewrite Hlen, Hparse.
  destruct dataObj as [|it o]; [discriminate Hcontains|].
  cbn [QJsonDocument_isNull QJsonDocument_isEmpty QJsonDocument_isObject
       QJsonObject_isEmpty QJsonDocument_object negb orb].
  rewrite Hcontains, Hversion. reflexivity.
Qed.

(** X8. Once the document has passed the version gate, [load] never
    reports failure: either it returns true, with the reason untouched and
    the preferences merged into the settings, or the run is aborted. *)
Theorem load_past_gate_never_fails
    (E : Platform) (fs : FileSystem) (fileName reason : QString)
    (pm : ProjectModel.t) (settings : QSettings)
    (fileMap : gmap string QByteArray) (dataObj : QJsonObject) :
  passes_gate E fs fileName fileMap dataObj ->
  (exists pm',
     load E fs fileName reason pm settings
       = Returned (true, reason, pm', load_prefs E fileMap settings)) \/
  (exists e, load E fs fileName reason pm settings = Aborted e).
Proof.
  intros Hgate. rewrite (load_past_gate _ _ _ _ _ _ _ _ Hgate).
  destruct (load_images E fileMap) as [im|e]; cbn; [|eauto].
  destruct (load_data E dataObj im fileName pm) as [pm'|e]; cbn; eauto.
Qed.

Lemma Fixture_passes_gate :
  passes_gate Fixture.one_folder_platform Fixture.files "project.mqs"
    Fixture.data_archive (QJsonDocument_object Fixture.one_folder_document).
Proof.
  exists [Byte.x31], [Byte.x7b; Byte.x7d; Byte.x00].
  repeat split; try reflexivity. discriminate.
Qed.

Lemma load_past_gate_never_fails_witness :
  (exists pm',
     load Fixture.one_folder_platform Fixture.files "project.mqs" ""
          Fixture.old_registry ∅
       = Returned (true, "", pm',
                   load_prefs Fixture.one_folder_platform
                     Fixture.data_archive ∅)) \/
  (exists e,
     load Fixture.one_folder_platform Fixture.files "project.mqs" ""
          Fixture.old_registry ∅ = Aborted e).
Proof.
  apply (load_past_gate_never_fails Fixture.one_folder_platform Fixture.files
           "project.mqs" "" Fixture.old_registry ∅ Fixture.data_archive
           (QJsonDocument_object Fixture.one_folder_document)).
  exact Fixture_passes_gate.
Defined.

(** The decoding of a part is aborted by a frame whose image is not in the
    map. *)
Lemma JsonToPart_missing_image
    (E : Platform) (imageMap : gmap QString QImage) (obj : QJsonObject)
    (part : Part.t) (modeName : QString) (modeObject : QJsonObject)
    (frameValue : QJsonValue) :
  mode_entry obj modeName modeObject ->
  In frameValue (mode_frames modeObject) ->
  imageMap !! frame_image_name frameValue = None ->
  exists e, JsonToPart E obj imageMap part = Aborted e.
Proof.
  intros Hentry Hframe Himage.
  destruct (Z.eq_dec (mode_frame_count modeObject) (mode_numFrames modeObject))
    as [Heq|Hne].
  - destruct (foldlM_aborts (JsonToPart_frame E imageMap) frameValue
                (mode_frames modeObject) Hframe
                (fun m => ex_intro _ NullPointerAccess
                            (JsonToPart_frame_missing E imageMap m frameValue
                               Himage))
                (mode_start E modeObject)) as [e He].
    eapply JsonToPart_mode_aborts; [exact Hentry|].
    rewrite JsonToPart_mode_match by exact Heq. exact He.
  - eapply JsonToPart_mode_aborts; [exact Hentry|].
    now apply JsonToPart_mode_mismatch.
Qed.

(** A part record whose decoding is aborted for every image map entry
    state aborts the last block of [load]. *)
Lemma load_data_part_aborts (E : Platform) (dataObj : QJsonObject)
    (imageMap : gmap QString QImage) (fileName : QString)
    (pm : ProjectModel.t) (key : QString) (partValue : QJsonValue) :
  In (key, partValue) (toObject (QJsonObject_value dataObj "parts")) ->
  (forall part, exists e,
     JsonToPart E (toObject partValue) imageMap part = Aborted e) ->
  exists e, load_data E dataObj imageMap fileName pm = Aborted e.
Proof.
  intros Hin Hpart. unfold load_data. rewrite guarded_foldlM.
  destruct (foldlM_aborts (load_part E imageMap) (key, partValue) _ Hin)
    with (b := ProjectModel.parts pm) as [e He].
  - intros b. unfold load_part. cbn [fst snd].
    destruct (Hpart
                (Part.mk (mkAssetRef (QUuid_fromString E key) AssetType.Part)
                   "" (AssetRef_new E) "" ∅)) as [e ->].
    cbn. eauto.
  - rewrite He. cbn. eauto.
Qed.

(** X9. [load] cannot report a missing image. When the document has
    passed the gate and a frame of a mode of one of its parts names an
    image that is not a .png record of the archive, the run of [load] is
    aborted: it returns neither true nor false with a reason. *)
Theorem load_aborts_on_missing_image
    (E : Platform) (fs : FileSystem) (fileName reason : QString)
    (pm : ProjectModel.t) (settings : QSettings)
    (fileMap : gmap string QByteArray) (dataObj : QJsonObject)
    (key : QString) (partValue : QJsonValue)
    (modeName : QString) (modeObject : QJsonObject)
    (frameValue : QJsonValue) :
  passes_gate E fs fileName fileMap dataObj ->
  In (key, partValue) (toObject (QJsonObject_value dataObj "parts")) ->
  mode_entry (toObject partValue) modeName modeObject ->
  In frameValue (mode_frames modeObject) ->
  (fileMap !! frame_image_name frameValue = None \/
   QString_endsWith (frame_image_name frameValue) ".png" = false) ->
  exists e, load E fs fileName reason pm settings = Aborted e.
Proof.
  intros Hgate Hpart Hmode Hframe Hname.
  rewrite (load_past_gate _ _ _ _ _ _ _ _ Hgate).
  destruct (load_images E fileMap) as [im|e] eqn:Him; cbn; [|eauto].
  assert (Hmissing : im !! frame_image_name frameValue = None).
  { rewrite (load_images_returned _ _ _ _ Him).
    destruct (QString_endsWith _ ".png"); [|reflexivity].
    destruct Hname as [Hname|Hname]; [|discriminate].
    pose proof (f_equal (fun o => o ≫= QImage_loadFromData E) Hname) as Hx.
    exact Hx. }
  destruct (load_data_part_aborts E dataObj im fileName pm key partValue Hpart)
    as [e He].
  - intros part. eapply JsonToPart_missing_image; eauto.
  - rewrite He. cbn. eauto.
Qed.

Lemma load_aborts_on_missing_image_witness :
  exists e,
    load Sample.missing_image_platform Fixture.files "project.mqs" ""
         Fixture.old_registry ∅ = Aborted e.
Proof.
  apply (load_aborts_on_missing_image Sample.missing_image_platform
           Fixture.files "project.mqs" "" Fixture.old_registry ∅
           Fixture.data_archive
           (QJsonDocument_object Sample.missing_image_document)
           "0x3"
           (JObject
              (Fixture.part_record
                 (Fixture.mode 1 [Fixture.frame "missing.png" 3 4])))
           "Idle" (Fixture.mode 1 [Fixture.frame "missing.png" 3 4])
           (Fixture.frame "missing.png" 3 4)).
  - exists [Byte.x31], [Byte.x7b; Byte.x7d; Byte.x00].
    repeat split; try reflexivity. discriminate.
  - left. reflexivity.
  - split; [left; reflexivity|split; discriminate].
  - left. reflexivity.
  - left. reflexivity.
Defined.

(** ** The registry after load *)

Lemma merged_from_empty {V : Type} (new : gmap QUuid V) (uuids : list QUuid)
    (decoded : QUuid -> V -> Prop) (u : QUuid) :
  merged ∅ new uuids decoded -> (is_Some (new !! u) <-> In u uuids).
Proof.
  intros [Hout Hin]. split.
  - intros Hsome. destruct (in_dec N.eq_dec u uuids) as [H|H]; [exact H|].
    rewrite (Hout u H), lookup_empty in Hsome. now destruct Hsome.
  - intros Hu. destruct (Hin u Hu) as (v & _ & ->). eauto.
Qed.

(** X10. When the registry is cleared before a successful [load], it
    holds afterwards the assets of the document and nothing else: each
    collection has an asset under a uuid exactly when the document lists
    that uuid in the collection. *)
Theorem load_after_clear_holds_the_document
    (E : Platform) (fs : FileSystem) (fileName reason : QString)
    (pm : ProjectModel.t) (settings : QSettings)
    (r : QString) (pm' : ProjectModel.t) (settings' : QSettings) :
  load E fs fileName reason (clear pm) settings
    = Returned (true, r, pm', settings') ->
  exists dataObj,
    data_parse E fs fileName NoError (DocObject dataObj) /\
    ProjectModel.fileName pm' = fileName /\
    forall u,
      (is_Some (ProjectModel.folders pm' !! u) <->
       In u (document_uuids E dataObj "folders")) /\
      (is_Some (ProjectModel.parts pm' !! u) <->
       In u (document_uuids E dataObj "parts")) /\
      (is_Some (ProjectModel.composites pm' !! u) <->
       In u (document_uuids E dataObj "comps")).
Proof.
  intros H. apply load_true_inv in H as (dataObj & imageMap & Hdoc & _ & H).
  apply load_data_merged in H as (Hname & Hf & Hp & Hc).
  exists dataObj. split; [exact Hdoc|]. split; [exact Hname|].
  intros u. cbn [clear ProjectModel.folders ProjectModel.parts
                 ProjectModel.composites] in Hf, Hp, Hc.
  split; [|split]; eapply merged_from_empty; eassumption.
Qed.

Lemma load_after_clear_holds_the_document_witness :
  exists dataObj,
    data_parse Fixture.one_folder_platform Fixture.files "project.mqs"
      NoError (DocObject dataObj) /\
    ProjectModel.fileName
      (ProjectModel.mk ∅ ∅ {[ 9%N := Fixture.new_folder ]} "project.mqs")
      = "project.mqs" /\
    forall u,
      (is_Some
         (ProjectModel.folders
            (ProjectModel.mk ∅ ∅ {[ 9%N := Fixture.new_folder ]}
               "project.mqs") !! u) <->
       In u (document_uuids Fixture.one_folder_platform dataObj "folders")) /\
      (is_Some
         (ProjectModel.parts
            (ProjectModel.mk ∅ ∅ {[ 9%N := Fixture.new_folder ]}
               "project.mqs") !! u) <->
       In u (document_uuids Fixture.one_folder_platform dataObj "parts")) /\
      (is_Some
         (ProjectModel.composites
            (ProjectModel.mk ∅ ∅ {[ 9%N := Fixture.new_folder ]}
               "project.mqs") !! u) <->
       In u (document_uuids Fixture.one_folder_platform dataObj "comps")).
Proof.
  apply (load_after_clear_holds_the_document Fixture.one_folder_platform
           Fixture.files "project.mqs" "" Fixture.old_registry ∅ "" _ ∅).
  vm_compute. reflexivity.
Defined.

Lemma merged_keyed {V : Type} (ref : V -> AssetRef) (kind : AssetType.t)
    (old new : gmap QUuid V) (uuids : list QUuid)
    (decoded : QUuid -> V -> Prop) :
  merged old new uuids decoded ->
  (forall u v, decoded u v -> ref v = mkAssetRef u kind) ->
  (forall u v, old !! u = Some v -> ref v = mkAssetRef u kind) ->
  forall u v, new !! u = Some v -> ref v = mkAssetRef u kind.
Proof.
  intros [Hout Hin] Hdec Hold u v Hv.
  destruct (in_dec N.eq_dec u uuids) as [H|H].
  - destruct (Hin u H) as (w & Hw & Hlook).
    rewrite Hlook in Hv. injection Hv as <-. now apply Hdec.
  - rewrite (Hout u H) in Hv. now apply Hold.
Qed.

(** X11. [load] keeps the registry keyed: if every stored asset sits under
    the uuid of its own reference and that reference has the kind of its
    collection, the same holds for the registry after [load] has returned,
    whether it succeeded or not. [clear] leaves a registry that is keyed. *)
Theorem load_keeps_registry_keyed
    (E : Platform) (fs : FileSystem) (fileName reason : QString)
    (pm : ProjectModel.t) (settings : QSettings)
    (b : bool) (r : QString) (pm' : ProjectModel.t) (settings' : QSettings) :
  registry_keyed pm ->
  load E fs fileName reason pm settings = Returned (b, r, pm', settings') ->
  registry_keyed pm' /\ registry_keyed (clear pm).
Proof.
  intros (Kp & Kc & Kf) Hrun. split.
  2:{ repeat split; intros u v Hv; cbn in Hv; rewrite lookup_empty in Hv;
        discriminate. }
  destruct b.
  - apply load_true_inv in Hrun as (dataObj & imageMap & _ & _ & H).
    apply load_data_merged in H as (_ & Hf & Hp & Hc).
    split; [|split].
    + apply (merged_keyed Part.ref AssetType.Part _ _ _ _ Hp); [|exact Kp].
      intros u p (record & _ & Hdec).
      now rewrite (JsonToPart_ref _ _ _ _ _ Hdec).
    + apply (merged_keyed Composite.ref AssetType.Composite _ _ _ _ Hc);
        [|exact Kc].
      intros u c (record & _ & ->). now rewrite JsonToComposite_ref.
    + apply (merged_keyed Folder.ref AssetType.Folder _ _ _ _ Hf); [|exact Kf].
      intros u f (record & _ & ->). now rewrite JsonToFolder_ref.
  - apply load_false_inv in Hrun as (-> & _ & _). repeat split; assumption.
Qed.

Lemma Fixture_old_registry_keyed : registry_keyed Fixture.old_registry.
Proof.
  split; [|split]; intros u v Hv; cbn in Hv.
  - rewrite lookup_empty in Hv. discriminate.
  - rewrite lookup_empty in Hv. discriminate.
  - apply lookup_singleton_Some in Hv as [<- <-]. reflexivity.
Qed.

Lemma load_keeps_registry_keyed_witness :
  registry_keyed Fixture.merged_registry /\
  registry_keyed (clear Fixture.old_registry).
Proof.
  apply (load_keeps_registry_keyed Fixture.one_folder_platform Fixture.files
           "project.mqs" "" Fixture.old_registry ∅ true "" _ ∅).
  - exact Fixture_old_registry_keyed.
  - vm_compute. reflexivity.
Defined.

(** X12. In a keyed registry [getAsset] answers with the asset that was
    asked for: what it returns carries exactly the given reference, uuid
    and kind, and [hasAsset] tells whether the collection of the
    reference's kind has the uuid. *)
Theorem getAsset_returns_the_reference
    (pm : ProjectModel.t) (ref : AssetRef) :
  registry_keyed pm ->
  (forall a, getAsset pm ref = Some a -> Asset_ref a = ref) /\
  (hasAsset pm ref =
   match type ref with
   | AssetType.Part => hasPart pm ref
   | AssetType.Composite => hasComposite pm ref
   | AssetType.Folder => hasFolder pm ref
   end).
Proof.
  intros (Kp & Kc & Kf). destruct ref as [u t]. split.
  - intros a. unfold getAsset, getPart, getComposite, getFolder.
    cbn [type uuid].
    destruct t; intros Ha; apply fmap_Some in Ha as (x & Hx & ->); cbn;
      auto.
  - unfold hasAsset, hasPart, hasComposite, hasFolder, getAsset.
    cbn [type]. destruct t.
    + now destruct (getPart pm _).
    + now destruct (getComposite pm _).
    + now destruct (getFolder pm _).
Qed.

Lemma getAsset_returns_the_reference_witness :
  (forall a,
     getAsset Fixture.old_registry (mkAssetRef 7%N AssetType.Folder) = Some a ->
     Asset_ref a = mkAssetRef 7%N AssetType.Folder) /\
  (hasAsset Fixture.old_registry (mkAssetRef 7%N AssetType.Folder) =
   match type (mkAssetRef 7%N AssetType.Folder) with
   | AssetType.Part =>
       hasPart Fixture.old_registry (mkAssetRef 7%N AssetType.Folder)
   | AssetType.Composite =>
       hasComposite Fixture.old_registry (mkAssetRef 7%N AssetType.Folder)
   | AssetType.Folder =>
       hasFolder Fixture.old_registry (mkAssetRef 7%N AssetType.Folder)
   end).
Proof.
  apply (getAsset_returns_the_reference Fixture.old_registry
           (mkAssetRef 7%N AssetType.Folder)).
  exact Fixture_old_registry_keyed.
Defined.

(** ** Lookup by name *)

Lemma key_before_total {V : Type} : Total (@key_before V).
Proof. intros a b. unfold key_before. lia. Qed.

Lemma key_before_transitive {V : Type} : Transitive (@key_before V).
Proof. intros a b c. unfold key_before. lia. Qed.

Lemma QMap_entries_In {V : Type} (m : gmap QUuid V) (u : QUuid) (v : V) :
  In (u, v) (QMap_entries m) <-> m !! u = Some v.
Proof.
  unfold QMap_entries. rewrite <- list_elem_of_In.
  rewrite (merge_sort_Permutation key_before (map_to_list m)).
  apply elem_of_map_to_list.
Qed.

Lemma QMap_values_In {V : Type} (m : gmap QUuid V) (v : V) :
  In v (QMap_values m) <-> exists u, m !! u = Some v.
Proof.
  unfold QMap_values. rewrite in_map_iff. split.
  - intros ([u w] & <- & Hin). exists u. now apply QMap_entries_In.
  - intros (u & Hu). exists (u, v). split; [reflexivity|].
    now apply QMap_entries_In.
Qed.

Section FindByName.
Context {V : Type}.
Variable name_of : V -> QString.
Variable m : gmap QUuid V.
Variable name : QString.

Lemma find_by_name_some (v : V) :
  find (fun x => String.eqb (name_of x) name) (QMap_values m) = Some v ->
  name_of v = name /\ exists u, m !! u = Some v.
Proof.
  intros H. apply find_some in H as [Hin Hname].
  split; [now apply String.eqb_eq|]. now apply QMap_values_In.
Qed.

Lemma find_by_name_none :
  find (fun x => String.eqb (name_of x) name) (QMap_values m) = None <->
  forall u v, m !! u = Some v -> name_of v <> name.
Proof.
  split.
  - intros H u v Hv. apply String.eqb_neq.
    apply (find_none _ _ H). apply QMap_values_In. eauto.
  - intros H.
    destruct (find _ (QMap_values m)) as [v|] eqn:Hfind; [|reflexivity].
    apply find_by_name_some in Hfind as (Hname & u & Hu).
    destruct (H u v Hu Hname).
Qed.

Lemma find_first_in_order (l : list (QUuid * V)) (v : V) :
  StronglySorted key_before l ->
  find (fun x => String.eqb (name_of x) name) (map snd l) = Some v ->
  exists u,
    In (u, v) l /\
    forall u' v', In (u', v') l -> name_of v' = name -> (u' <= u)%N.
Proof.
  induction 1 as [|[k w] l Hsorted IH Hall]; cbn [map find snd];
    [discriminate|].
  destruct (String.eqb (name_of w) name) eqn:Hw.
  - intros [= <-]. exists k. split; [now left|].
    intros u' v' [[= <- <-]|Hin] _; [lia|].
    rewrite Forall_forall in Hall. apply (Hall (u', v')).
    now apply list_elem_of_In.
  - intros Hfind. destruct (IH Hfind) as (u & Hin & Hmax).
    exists u. split; [now right|].
    intros u' v' [[= <- <-]|Hin'] Hname; [|now apply (Hmax u' v')].
    apply String.eqb_neq in Hw. contradiction.
Qed.

Lemma find_by_name_first (v : V) :
  find (fun x => String.eqb (name_of x) name) (QMap_values m) = Some v ->
  exists u,
    m !! u = Some v /\
    forall u' v', m !! u' = Some v' -> name_of v' = name -> (u' <= u)%N.
Proof.
  intros H. unfold QMap_values in H.
  apply find_first_in_order in H as (u & Hin & Hmax).
  - exists u. split; [now apply QMap_entries_In|].
    intros u' v' Hv'. apply Hmax. now apply QMap_entries_In.
  - apply StronglySorted_merge_sort;
      [apply key_before_transitive|apply key_before_total].
Qed.

End FindByName.

(** X13. The three searches by name are sound and complete: a part,
    composite or folder that is returned is stored in the registry and
    has the given name, and nothing is returned exactly when no stored
    asset of that collection has the name. *)
Theorem find_by_name_spec (pm : ProjectModel.t) (name : QString) :
  ((forall p, findPartByName pm name = Some p ->
      Part.name p = name /\ exists u, ProjectModel.parts pm !! u = Some p) /\
   (findPartByName pm name = None <->
    forall u p, ProjectModel.parts pm !! u = Some p -> Part.name p <> name)) /\
  ((forall c, findCompositeByName pm name = Some c ->
      Composite.name c = name /\
      exists u, ProjectModel.composites pm !! u = Some c) /\
   (findCompositeByName pm name = None <->
    forall u c, ProjectModel.composites pm !! u = Some c ->
                Composite.name c <> name)) /\
  ((forall f, findFolderByName pm name = Some f ->
      Folder.name f = name /\
      exists u, ProjectModel.folders pm !! u = Some f) /\
   (findFolderByName pm name = None <->
    forall u f, ProjectModel.folders pm !! u = Some f ->
                Folder.name f <> name)).
Proof.
  unfold findPartByName, findCompositeByName, findFolderByName.
  split; [|split];
    (split; [intros x; apply find_by_name_some|apply find_by_name_none]).
Qed.

(** X14. When several assets of a collection share the name, the search
    returns the first one in the order of the map, which is [operator<]
    on the references: the one stored under the greatest uuid. *)
Theorem find_by_name_takes_greatest_uuid
    (pm : ProjectModel.t) (name : QString) :
  (forall p, findPartByName pm name = Some p ->
     exists u, ProjectModel.parts pm !! u = Some p /\
       forall u' p', ProjectModel.parts pm !! u' = Some p' ->
                     Part.name p' = name -> (u' <= u)%N) /\
  (forall c, findCompositeByName pm name = Some c ->
     exists u, ProjectModel.composites pm !! u = Some c /\
       forall u' c', ProjectModel.composites pm !! u' = Some c' ->
                     Composite.name c' = name -> (u' <= u)%N) /\
  (forall f, findFolderByName pm name = Some f ->
     exists u, ProjectModel.folders pm !! u = Some f /\
       forall u' f', ProjectModel.folders pm !! u' = Some f' ->
                     Folder.name f' = name -> (u' <= u)%N).
Proof.
  unfold findPartByName, findCompositeByName, findFolderByName.
  split; [|split]; intros x; apply find_by_name_first.
Qed.

(** ** The pivots of a mode, for any number of pivots *)




Section PivotLoops.
Variable g : Z -> QPoint.



End PivotLoops.

Section FramePivots.
Variable E : Platform.
Variable imageMap : gmap QString QImage.

(** The two pivot loops of one frame, started with the array [pv]. *)
Local Abbreviation pivot_loops np fv pv :=
  (pivots ← foldlM
     (fun pivots p => pivots_push_back pivots p (frame_pivot E p fv))
     pv (seqZ 0 np);
   foldlM (fun pivots p => pivots_push_back pivots p (mkQPoint 0 0))
     pivots (seqZ np (Z.of_nat (MAX_PIVOTS E) - np))).

Lemma JsonToPart_frame_unfold (m : Mode.t) (fv : QJsonValue) :
  JsonToPart_frame E imageMap m fv =
  match imageMap !! frame_image_name fv with
  | None => Aborted NullPointerAccess
  | Some image =>
      if (width image =? Mode.width m) && (height image =? Mode.height m)
      then
        pivots ← pivot_loops (Mode.numPivots m) fv (Mode.pivots m);
        Returned
          (Mode.mk (Mode.width m) (Mode.height m) (Mode.numFrames m)
             (Mode.numPivots m) (Mode.framesPerSecond m)
             (Mode.frames m ++ [image])
             (Mode.anchor m ++ [frame_anchor E fv]) pivots)
      else Aborted (AssertionFailure dimensions_text)
  end.
Proof.
  unfold JsonToPart_frame, frame_image_name.
  destruct (imageMap !! _) as [image|]; [|reflexivity].
  cbn [Q_ASSERT mbind Outcome_bind].
  destruct ((width image =? Mode.width m) && (height image =? Mode.height m));
    cbn [Q_ASSERT mbind Outcome_bind]; [|reflexivity].
  destruct (foldlM _ (Mode.pivots m) _) as [pv|e]; reflexivity.
Qed.




End FramePivots.

Lemma foldlM_aborts_invariant {A B : Type} (f : B -> A -> Outcome B)
    (I : B -> Prop) (a : A) (l : list A) :
  In a l ->
  (forall b x b', I b -> f b x = Returned b' -> I b') ->
  (forall b, I b -> exists e, f b a = Aborted e) ->
  forall b, I b -> exists e, foldlM f b l = Aborted e.
Proof.
  intros Hin Hkeep Hstep. induction l as [|a' l IH]; [destruct Hin|].
  intros b Hb. cbn [foldlM].
  destruct Hin as [->|Hin].
  - destruct (Hstep b Hb) as [e ->]. cbn. eauto.
  - destruct (f b a') as [b'|e] eqn:Hfa; cbn; [|eauto].
    apply IH; [exact Hin|]. eapply Hkeep; eauto.
Qed.



Section DecodedMode.
Variable E : Platform.
Variable imageMap : gmap QString QImage.
Variable modeObject : QJsonObject.
Variable m : Mode.t.
Hypothesis decoded : JsonToPart_mode E imageMap modeObject = Returned m.




End DecodedMode.






Section FrameFaults.
Variable E : Platform.
Variable imageMap : gmap QString QImage.

Lemma mode_start_pivots_length (modeObject : QJsonObject) :
  length (Mode.pivots (mode_start E modeObject)) = MAX_PIVOTS E.
Proof. apply length_replicate. Qed.

Lemma JsonToPart_frame_keeps_dimensions (m m' : Mode.t) (fv : QJsonValue) :
  JsonToPart_frame E imageMap m fv = Returned m' ->
  Mode.width m' = Mode.width m /\ Mode.height m' = Mode.height m.
Proof.
  rewrite JsonToPart_frame_unfold.
  destruct (imageMap !! frame_image_name fv) as [image|]; [|discriminate].
  destruct (_ && _); [|discriminate].
  destruct (foldlM _ _ _ ≫= _) as [pv|e]; [|discriminate].
  cbn [mbind Outcome_bind]. now intros [= <-].
Qed.

Lemma JsonToPart_frame_wrong_dimensions (m : Mode.t) (fv : QJsonValue)
    (image : QImage) :
  imageMap !! frame_image_name fv = Some image ->
  width image <> Mode.width m \/ height image <> Mode.height m ->
  JsonToPart_frame E imageMap m fv
    = Aborted (AssertionFailure dimensions_text).
Proof.
  intros Himage Hdims. rewrite JsonToPart_frame_unfold.
  pose proof (eq_refl : imageMap !! frame_image_name fv
                        = imageMap !! frame_image_name fv) as Hx.
  rewrite Himage in Hx at 2. rewrite Hx.
  replace ((width image =? Mode.width m) && (height image =? Mode.height m))
    with false; [reflexivity|].
  symmetry. apply andb_false_iff.
  destruct Hdims as [H|H]; [left|right]; now apply Z.eqb_neq.
Qed.

Lemma JsonToPart_mode_wrong_dimensions (modeObject : QJsonObject)
    (fv : QJsonValue) (image : QImage) :
  In fv (mode_frames modeObject) ->
  imageMap !! frame_image_name fv = Some image ->
  width image <> toInt (QJsonObject_value modeObject "width") \/
  height image <> toInt (QJsonObject_value modeObject "height") ->
  exists e, JsonToPart_mode E imageMap modeObject = Aborted e.
Proof.
  intros Hin Himage Hdims.
  destruct (Z.eq_dec (mode_frame_count modeObject)
              (mode_numFrames modeObject)) as [Heq|Hne].
  - rewrite JsonToPart_mode_match by exact Heq.
    apply (foldlM_aborts_invariant _
             (fun m => Mode.width m
                         = toInt (QJsonObject_value modeObject "width") /\
                       Mode.height m
                         = toInt (QJsonObject_value modeObject "height"))
             fv); [exact Hin| | |split; reflexivity].
    + intros b x b' (Hw & Hh) Hstep.
      apply JsonToPart_frame_keeps_dimensions in Hstep as (-> & ->).
      now split.
    + intros b (Hw & Hh). eexists.
      apply (JsonToPart_frame_wrong_dimensions b fv image Himage).
      now rewrite Hw, Hh.
  - rewrite JsonToPart_mode_mismatch by exact Hne. eauto.
Qed.


End FrameFaults.



(** X18. A frame whose image is in the map but differs in width or height
    from the mode under construction fails the assertion on the
    dimensions; a part record with a mode that holds such a frame is not
    decoded. *)
Theorem frame_of_wrong_size_is_fatal
    (E : Platform) (imageMap : gmap QString QImage)
    (obj : QJsonObject) (part : Part.t) (modeName : QString)
    (modeObject : QJsonObject) (fv : QJsonValue) (image : QImage) :
  mode_entry obj modeName modeObject ->
  In fv (mode_frames modeObject) ->
  imageMap !! frame_image_name fv = Some image ->
  width image <> toInt (QJsonObject_value modeObject "width") \/
  height image <> toInt (QJsonObject_value modeObject "height") ->
  (forall m : Mode.t,
     Mode.width m = toInt (QJsonObject_value modeObject "width") ->
     Mode.height m = toInt (QJsonObject_value modeObject "height") ->
     JsonToPart_frame E imageMap m fv
       = Aborted (AssertionFailure dimensions_text)) /\
  exists e, JsonToPart E obj imageMap part = Aborted e.
Proof.
  intros Hentry Hin Himage Hdims. split.
  - intros m Hw Hh.
    apply (JsonToPart_frame_wrong_dimensions E imageMap m fv image Himage).
    now rewrite Hw, Hh.
  - destruct (JsonToPart_mode_wrong_dimensions E imageMap modeObject fv image
                Hin Himage Hdims) as [e He].
    eapply JsonToPart_mode_aborts; eassumption.
Qed.

Lemma frame_of_wrong_size_is_fatal_witness :
  JsonToPart_frame Fixture.one_folder_platform Fixture.images
    (mode_start Fixture.one_folder_platform Sample.wide_mode)
    (Fixture.frame "hero_000.png" 3 4)
    = Aborted (AssertionFailure dimensions_text) /\
  exists e,
    JsonToPart Fixture.one_folder_platform
      (Fixture.part_record Sample.wide_mode) Fixture.images
      Fixture.hero_part = Aborted e.
Proof.
  destruct (frame_of_wrong_size_is_fatal
              Fixture.one_folder_platform Fixture.images
              (Fixture.part_record Sample.wide_mode)
              Fixture.hero_part "Idle" Sample.wide_mode
              (Fixture.frame "hero_000.png" 3 4) Fixture.image2)
    as [Hframe Hpart].
  - split; [vm_compute; auto 10 | split; discriminate].
  - left. reflexivity.
  - reflexivity.
  - left. vm_compute. discriminate.
  - split; [|exact Hpart].
    apply Hframe; reflexivity.
Defined.

Lemma QJsonObject_find_absent (o : QJsonObject) (key : QString) :
  ~ In key (map fst o) -> QJsonObject_find o key = None.
Proof.
  induction o as [|[k v] o IH]; [reflexivity|].
  cbn [map fst In QJsonObject_find]. intros H.
  destruct (String.eqb_spec k key) as [->|Hk]; [tauto|].
  apply IH. tauto.
Qed.

Lemma QJsonObject_find_In (o : QJsonObject) (key : QString) (v : QJsonValue) :
  List.NoDup (map fst o) -> In (key, v) o -> QJsonObject_find o key = Some v.
Proof.
  induction o as [|[k w] o IH]; [intros _ []|].
  cbn [map fst In QJsonObject_find]. intros Hnd Hin.
  apply NoDup_cons_iff in Hnd as [Hk Hnd].
  destruct Hin as [[= -> ->]|Hin].
  - now rewrite String.eqb_refl.
  - destruct (String.eqb_spec k key) as [->|Hne].
    + exfalso. apply Hk. apply (in_map fst) in Hin. exact Hin.
    + now apply IH.
Qed.

Lemma QJsonObject_find_Some_In (o : QJsonObject) (key : QString)
    (v : QJsonValue) :
  QJsonObject_find o key = Some v -> In (key, v) o.
Proof.
  induction o as [|[k w] o IH]; [discriminate|].
  cbn [QJsonObject_find In].
  destruct (String.eqb_spec k key) as [->|Hne].
  - intros [= ->]. now left.
  - intros H. right. now apply IH.
Qed.

Section PartFields.
Variable E : Platform.
Variable imageMap : gmap QString QImage.

Lemma JsonToPart_entry_step (part part1 : Part.t) (key : QString)
    (v : QJsonValue) :
  JsonToPart_entry E imageMap part (key, v) = Returned part1 ->
  Part.ref part1 = Part.ref part /\
  Part.name part1 = Part.name part /\
  Part.parent part1 = Part.parent part /\
  ((key = "properties" /\ Part.properties part1 = toString v /\
    Part.modes part1 = Part.modes part) \/
   (key <> "properties" /\ toObject v = [] /\ part1 = part) \/
   (key <> "properties" /\ toObject v <> [] /\
    Part.properties part1 = Part.properties part /\
    exists m, JsonToPart_mode E imageMap (toObject v) = Returned m /\
              Part.modes part1 = <[key := m]> (Part.modes part))).
Proof.
  unfold JsonToPart_entry. cbn [fst snd].
  destruct (String.eqb_spec key "properties") as [Hk|Hk].
  - intros [= <-]. cbn. auto 10.
  - destruct (toObject v) as [|it o] eqn:Ho; cbn [QJsonObject_isEmpty negb].
    + intros [= <-]. auto 10.
    + intros H. apply bind_Returned_inv in H as (m & Hm & [= <-]). cbn.
      do 3 (split; [reflexivity|]). right. right.
      split; [exact Hk|]. split; [discriminate|]. split; [reflexivity|].
      eauto.
Qed.

Lemma JsonToPart_entries_spec (obj : QJsonObject) :
  forall part part' : Part.t,
    List.NoDup (map fst obj) ->
    foldlM (JsonToPart_entry E imageMap) part obj = Returned part' ->
    Part.ref part' = Part.ref part /\
    Part.name part' = Part.name part /\
    Part.parent part' = Part.parent part /\
    Part.properties part' =
      match QJsonObject_find obj "properties" with
      | Some v => toString v
      | None => Part.properties part
      end /\
    (forall k : QString,
       QJsonObject_find obj k = None ->
       Part.modes part' !! k = Part.modes part !! k) /\
    (forall (k : QString) (v : QJsonValue),
       QJsonObject_find obj k = Some v ->
       k = "properties" \/ toObject v = [] ->
       Part.modes part' !! k = Part.modes part !! k) /\
    (forall (k : QString) (v : QJsonValue),
       QJsonObject_find obj k = Some v ->
       k <> "properties" -> toObject v <> [] ->
       exists m, JsonToPart_mode E imageMap (toObject v) = Returned m /\
                 Part.modes part' !! k = Some m).
Proof.
  induction obj as [|[key v] obj IH]; intros part part' Hnd Hrun.
  - cbn in Hrun. injection Hrun as <-. cbn [QJsonObject_find].
    do 4 (split; [reflexivity|]).
    split; [intros; reflexivity|]. split; [intros; reflexivity|].
    intros k v H. discriminate H.
  - cbn [map fst] in Hnd. apply NoDup_cons_iff in Hnd as [Hkey Hnd].
    apply foldlM_cons_Returned in Hrun as (part1 & Hstep & Hrun).
    destruct (IH part1 part' Hnd Hrun)
      as (Hr & Hn & Hp & Hprops & Ha & Hb & Hc).
    apply JsonToPart_entry_step in Hstep as (Sr & Sn & Sp & Scase).
    pose proof (QJsonObject_find_absent obj key Hkey) as Habsent.
    assert (Hother : forall k : QString,
              key <> k -> Part.modes part1 !! k = Part.modes part !! k).
    { intros k Hne.
      destruct Scase as [(_ & _ & ->)|[(_ & _ & ->)|(_ & _ & _ & m & _ & ->)]];
        [reflexivity|reflexivity|].
      now apply lookup_insert_ne. }
    split; [congruence|]. split; [congruence|]. split; [congruence|].
    cbn [QJsonObject_find].
    split; [|split; [|split]].
    + destruct (String.eqb_spec key "properties") as [->|Hk].
      * rewrite Habsent in Hprops. rewrite Hprops.
        destruct Scase as [(_ & H & _)|[(H & _)|(H & _)]];
          [exact H|contradiction|contradiction].
      * rewrite Hprops. destruct (QJsonObject_find obj "properties");
          [reflexivity|].
        destruct Scase as [(H & _)|[(_ & _ & ->)|(_ & _ & H & _)]];
          [contradiction|reflexivity|exact H].
    + intros k. destruct (String.eqb_spec key k) as [->|Hk]; [discriminate|].
      intros Hfind. rewrite (Ha k Hfind). now apply Hother.
    + intros k w. destruct (String.eqb_spec key k) as [->|Hk].
      * intros [= <-] Hcase. rewrite (Ha k Habsent).
        destruct Scase as [(_ & _ & ->)|[(_ & _ & ->)|(Hk & Hv & _)]];
          [reflexivity|reflexivity|].
        destruct Hcase; contradiction.
      * intros Hfind Hcase. rewrite (Hb k w Hfind Hcase). now apply Hother.
    + intros k w. destruct (String.eqb_spec key k) as [->|Hk].
      * intros [= <-] Hk Hv. rewrite (Ha k Habsent).
        destruct Scase as [(H & _)|[(_ & H & _)|(_ & _ & _ & m & Hm & ->)]];
          [contradiction|contradiction|].
        exists m. split; [exact Hm|]. apply lookup_insert_eq.
      * intros Hfind Hk' Hv. apply (Hc k w Hfind Hk' Hv).
Qed.

End PartFields.

(** X19. A part record with distinct keys that is decoded gives a part
    with the reference of the target, the name of the record, the parent
    of the record as a folder reference (the parent of the target when the
    record has none) and the properties of the record (those of the target
    when the record has none). Under the key of every non-empty object
    other than properties it holds the decoding of that object, and under
    every other key it holds what the target held. *)
Theorem decoded_part_fields
    (E : Platform) (imageMap : gmap QString QImage) (obj : QJsonObject)
    (part part' : Part.t) :
  List.NoDup (map fst obj) ->
  JsonToPart E obj imageMap part = Returned part' ->
  Part.ref part' = Part.ref part /\
  Part.name part' = toString (QJsonObject_value obj "name") /\
  Part.parent part' =
    (if QJsonObject_contains obj "parent"
     then mkAssetRef
            (QUuid_fromString E (toString (QJsonObject_value obj "parent")))
            AssetType.Folder
     else Part.parent part) /\
  Part.properties part' =
    (if QJsonObject_contains obj "properties"
     then toString (QJsonObject_value obj "properties")
     else Part.properties part) /\
  (forall (k : QString) (o : QJsonObject),
     mode_entry obj k o ->
     exists m, JsonToPart_mode E imageMap o = Returned m /\
               Part.modes part' !! k = Some m) /\
  (forall k : QString,
     (forall o : QJsonObject, ~ mode_entry obj k o) ->
     Part.modes part' !! k = Part.modes part !! k).
Proof.
  intros Hnd Hrun. unfold JsonToPart in Hrun.
  apply JsonToPart_entries_spec in Hrun
    as (Hr & Hn & Hp & Hprops & Ha & Hb & Hc); [|exact Hnd].
  split; [rewrite Hr; now destruct (QJsonObject_contains obj "parent")|].
  split; [rewrite Hn; now destruct (QJsonObject_contains obj "parent")|].
  split; [rewrite Hp; now destruct (QJsonObject_contains obj "parent")|].
  split.
  { rewrite Hprops. unfold QJsonObject_contains, QJsonObject_value.
    destruct (QJsonObject_find obj "properties"); [reflexivity|].
    now destruct (match QJsonObject_find obj "parent" with
                  | Some _ => true | None => false end). }
  split.
  - intros k o (Hin & Hk & Ho).
    pose proof (QJsonObject_find_In obj k (JObject o) Hnd Hin) as Hfind.
    destruct (Hc k (JObject o) Hfind Hk Ho) as (m & Hm & Hlook).
    exists m. split; [exact Hm|]. rewrite Hlook.
    now destruct (QJsonObject_contains obj "parent").
  - intros k Hnone.
    transitivity
      (Part.modes
         (if QJsonObject_contains obj "parent"
          then Part.mk (Part.ref part)
                 (toString (QJsonObject_value obj "name"))
                 (mkAssetRef
                    (QUuid_fromString E
                       (toString (QJsonObject_value obj "parent")))
                    AssetType.Folder)
                 (Part.properties part) (Part.modes part)
          else Part.mk (Part.ref part)
                 (toString (QJsonObject_value obj "name"))
                 (Part.parent part) (Part.properties part)
                 (Part.modes part)) !! k);
      [|now destruct (QJsonObject_contains obj "parent")].
    destruct (QJsonObject_find obj k) as [v|] eqn:Hfind; [|now apply Ha].
    destruct (String.eqb_spec k "properties") as [Hk|Hk];
      [apply (Hb k v Hfind); now left|].
    destruct (toObject v) as [|it o'] eqn:Hv;
      [apply (Hb k v Hfind); now right|].
    exfalso.
    assert (Hne : toObject v <> []) by (rewrite Hv; discriminate).
    apply toObject_nonempty in Hne as (o & -> & Ho).
    apply (Hnone o). split; [|split; assumption].
    now apply QJsonObject_find_Some_In.
Qed.

Lemma Fixture_hero_record_keys :
  List.NoDup (map fst Fixture.hero_record).
Proof.
  cbn. repeat (constructor; [cbn; intuition discriminate|]).
  constructor.
Qed.

Lemma decoded_part_fields_witness :
  Part.name Fixture.hero_part = "Hero" /\
  Part.modes Fixture.hero_part !! "Empty" = Part.modes Fixture.new_part !! "Empty" /\
  exists m,
    JsonToPart_mode Fixture.one_folder_platform Fixture.images
      (Fixture.mode 1 [Fixture.frame "hero_000.png" 3 4]) = Returned m /\
    Part.modes Fixture.hero_part !! "Idle" = Some m.
Proof.
  destruct (decoded_part_fields Fixture.one_folder_platform Fixture.images
              Fixture.hero_record Fixture.new_part Fixture.hero_part
              Fixture_hero_record_keys eq_refl)
    as (_ & Hname & _ & _ & Hmode & Hother).
  split; [exact Hname|]. split.
  - apply Hother. intros o (Hin & _ & Ho).
    vm_compute in Hin. intuition congruence.
  - apply Hmode. split; [vm_compute; auto 10|split; discriminate].
Defined.

Lemma QString_replace_clears_spaces (s : QString) :
  no_space (QString_replace " " "_" s).
Proof.
  unfold no_space. induction s as [|ch s IH]; [reflexivity|].
  cbn [QString_replace contains_space]. rewrite IH.
  destruct (Ascii.eqb_spec ch " ") as [->|Hch]; [reflexivity|].
  apply Ascii.eqb_neq in Hch. now rewrite Hch.
Qed.

Lemma encoded_child_names_any (E : Platform) (c : Composite.t)
    (l : list QString) :
  map child_entry_name (map (CompositeToJson_child E c) l)
    = map (QString_replace " " "_") l.
Proof.
  induction l as [|n l IH]; cbn [map]; [reflexivity|].
  now rewrite encoded_child_name, IH.
Qed.

(** X20. Encoding a composite and decoding the record into a target, for
    any composite: the decoded composite has the name given to the encoder
    and the properties of the composite, and its children are those of the
    target followed by the children of the composite with every space
    replaced by an underscore; none of the decoded names holds a space. *)
Theorem Composite_round_trip_names
    (E : Platform) (name : QString) (c target : Composite.t) :
  let decoded := JsonToComposite E (CompositeToJson E name c []) target in
  Composite.ref decoded = Composite.ref target /\
  Composite.name decoded = name /\
  Composite.properties decoded = Composite.properties c /\
  Composite.children decoded =
    Composite.children target
      ++ map (QString_replace " " "_") (Composite.children c) /\
  Forall no_space (map (QString_replace " " "_") (Composite.children c)).
Proof.
  cbn zeta.
  destruct (encoded_fields E name c) as (_ & Hname & Hprops).
  split; [apply JsonToComposite_ref|].
  unfold JsonToComposite. rewrite encoded_parts, Hname, Hprops.
  match goal with
  | |- context [fold_left _ ?vs (?c0, ?i0)] =>
      pose proof (JsonToComposite_children_spec E vs c0 i0) as Hspec
  end.
  cbn zeta in Hspec. destruct Hspec as (Hch & _ & (Hn & Hp & _) & _).
  rewrite Hn, Hp, Hch. cbn [Composite.name Composite.properties
                            Composite.children toString].
  rewrite encoded_child_names_any.
  repeat split.
  apply List.Forall_forall. intros n Hin. apply in_map_iff in Hin as (s & <- & _).
  apply QString_replace_clears_spaces.
Qed.

Section Preferences.
Variable E : Platform.

Lemma load_prefs_entries (obj : QJsonObject) (k : QString) :
  forall settings : QSettings,
    List.NoDup (map fst obj) ->
    fold_left
      (fun (settings : QSettings) (it : QString * QJsonValue) =>
         if String.eqb (fst it) "background_colour" then
           <[fst it := VUInt (QString_toUInt E (toString (snd it)))]>
             settings
         else <[fst it := VJson (snd it)]> settings)
      obj settings !! k =
    match QJsonObject_find obj k with
    | Some v => Some (preference_value E k v)
    | None => settings !! k
    end.
Proof.
  induction obj as [|[key v] obj IH]; intros settings Hnd; [reflexivity|].
  cbn [map fst] in Hnd. apply NoDup_cons_iff in Hnd as [Hkey Hnd].
  cbn [fold_left QJsonObject_find fst snd]. rewrite (IH _ Hnd).
  destruct (String.eqb_spec key k) as [->|Hne].
  - rewrite (QJsonObject_find_absent obj k Hkey). unfold preference_value.
    destruct (String.eqb k "background_colour"); apply lookup_insert_eq.
  - destruct (QJsonObject_find obj k); [reflexivity|].
    destruct (String.eqb key "background_colour");
      now apply lookup_insert_ne.
Qed.

End Preferences.

(** X21. The preferences record is merged leniently. Without a record
    prefs.json, with a record that does not parse, or with one that is
    null, empty or no object, the settings are left as they are.
    Otherwise every key of the record is set: background_colour to the
    unsigned integer read from its string, any other key to its value as
    a variant; all other settings keep their value. *)
Theorem load_prefs_spec
    (E : Platform) (fileMap : gmap string QByteArray)
    (settings : QSettings) :
  (fileMap !! "prefs.json" = None ->
   load_prefs E fileMap settings = settings) /\
  (forall (prefsRec : QByteArray) (error : QJsonParseError)
          (prefsDoc : QJsonDocument),
     fileMap !! "prefs.json" = Some prefsRec ->
     QJsonDocument_fromJson E (take (record_text_length prefsRec) prefsRec)
       = (error, prefsDoc) ->
     error <> NoError \/
     QJsonDocument_isNull prefsDoc = true \/
     QJsonDocument_isEmpty prefsDoc = true \/
     QJsonDocument_isObject prefsDoc = false ->
     load_prefs E fileMap settings = settings) /\
  (forall (prefsRec : QByteArray) (settingsObj : QJsonObject),
     fileMap !! "prefs.json" = Some prefsRec ->
     QJsonDocument_fromJson E (take (record_text_length prefsRec) prefsRec)
       = (NoError, DocObject settingsObj) ->
     List.NoDup (map fst settingsObj) ->
     forall key : QString,
       load_prefs E fileMap settings !! key =
       match QJsonObject_find settingsObj key with
       | Some v => Some (preference_value E key v)
       | None => settings !! key
       end).
Proof.
  split; [|split].
  - intros Hnone. unfold load_prefs.
    pose proof (eq_refl : fileMap !! "prefs.json" = fileMap !! "prefs.json")
      as Hx.
    rewrite Hnone in Hx at 2. now rewrite Hx.
  - intros prefsRec error prefsDoc Hrec Hparse Hcase. unfold load_prefs.
    pose proof (eq_refl : fileMap !! "prefs.json" = fileMap !! "prefs.json")
      as Hx.
    rewrite Hrec in Hx at 2. rewrite Hx. cbn zeta. rewrite Hparse.
    destruct error as [|text]; [|reflexivity].
    destruct Hcase as [H|[H|[H|H]]]; [contradiction| | |]; rewrite H;
      rewrite ?orb_true_r; reflexivity.
  - intros prefsRec settingsObj Hrec Hparse Hnd key. unfold load_prefs.
    pose proof (eq_refl : fileMap !! "prefs.json" = fileMap !! "prefs.json")
      as Hx.
    rewrite Hrec in Hx at 2. rewrite Hx. cbn zeta. rewrite Hparse.
    destruct settingsObj as [|it o]; [reflexivity|].
    cbn [QJsonDocument_isNull QJsonDocument_isEmpty QJsonDocument_isObject
         QJsonObject_isEmpty QJsonDocument_object negb orb].
    now apply load_prefs_entries.
Qed.

Lemma load_prefs_spec_witness :
  load_prefs Sample.prefs_platform Sample.prefs_archive
    {[ "grid" := VUInt 1; "zoom" := VUInt 4 ]} !! "background_colour"
    = Some (VUInt 255) /\
  load_prefs Sample.prefs_platform Sample.prefs_archive
    {[ "grid" := VUInt 1; "zoom" := VUInt 4 ]} !! "grid"
    = Some (VJson (JBool true)) /\
  load_prefs Sample.prefs_platform Sample.prefs_archive
    {[ "grid" := VUInt 1; "zoom" := VUInt 4 ]} !! "zoom"
    = Some (VUInt 4).
Proof.
  destruct (load_prefs_spec Sample.prefs_platform Sample.prefs_archive
              {[ "grid" := VUInt 1; "zoom" := VUInt 4 ]})
    as (_ & _ & Hmerge).
  assert (Hnd : List.NoDup
                  (map fst (QJsonDocument_object Sample.prefs_document))).
  { cbn. repeat (constructor; [cbn; intuition discriminate|]). constructor. }
  pose proof (Hmerge [Byte.x7b; Byte.x7d; Byte.x00]
                (QJsonDocument_object Sample.prefs_document)
                eq_refl eq_refl Hnd) as Hkeys.
  split; [exact (Hkeys "background_colour")|].
  split; [exact (Hkeys "grid")|exact (Hkeys "zoom")].
Defined.

Section LoadedModes.
Variable E : Platform.
Variable imageMap : gmap QString QImage.



End LoadedModes.


